(** * Self-healing infrastructure co-pilot: retrieval, prompt and generation client

    A shallow embedding of [app.py]: the [TinyRAG] knowledge base and its
    [retrieve] method, the prompt assembled by [agentic_self_healing], and the
    response handling of [gemini_generate].

    Python strings are sequences of Unicode code points, so a [str] is a list
    of code points.  Python integers are unbounded, so they are [Z]. *)

From Stdlib Require Import String Ascii.
From Stdlib Require Import List ZArith NArith Lia Bool Sorted Permutation.
From Stdlib Require Import Floats.SpecFloat.
Import ListNotations.

Local Open Scope Z_scope.

(** ** Strings *)

Definition char := N.
Definition str := list char.

(** A literal of the source, all of whose characters are ASCII. *)
Definition lit (s : string) : str := List.map N_of_ascii (list_ascii_of_string s).
Arguments lit : simpl never.

Definition str_eqb (a b : str) : bool :=
  if list_eq_dec N.eq_dec a b then true else false.

(** [str.isspace] on one code point: the characters for which CPython's
    [Py_UNICODE_ISSPACE] holds, which [str.split()] and [str.strip()] use. *)
Definition isspace (c : char) : bool :=
  ((9 <=? c) && (c <=? 13) || (28 <=? c) && (c <=? 32) || (c =? 133) || (c =? 160)
   || (c =? 5760) || (8192 <=? c) && (c <=? 8202) || (c =? 8232) || (c =? 8233)
   || (c =? 8239) || (c =? 8287) || (c =? 12288))%N.

(** [prefix.startswith]: is [p] a prefix of [s]? *)
Fixpoint startswith (p s : str) : bool :=
  match p, s with
  | [], _ => true
  | _ :: _, [] => false
  | a :: p', b :: s' => (a =? b)%N && startswith p' s'
  end.

(** [w in s] on two strings: [w] occurs in [s] as a contiguous substring. *)
Fixpoint contains (w s : str) : bool :=
  startswith w s ||
  match s with
  | [] => false
  | _ :: s' => contains w s'
  end.

(** The substring relation that [contains] decides. *)
Definition Substring (w s : str) : Prop :=
  exists pre post, s = pre ++ w ++ post.

(** [s.split()] without a separator: the maximal runs of non-whitespace
    characters, in order; [cur] is the run being read. *)
Fixpoint split_from (cur : str) (s : str) : list str :=
  match s with
  | [] => match cur with [] => [] | _ => [cur] end
  | c :: s' =>
      if isspace c
      then match cur with [] => split_from [] s' | _ => cur :: split_from [] s' end
      else split_from (cur ++ [c]) s'
  end.

Definition split (s : str) : list str := split_from [] s.

(** [s.lstrip()], [s.rstrip()] and [s.strip()] without an argument. *)
Fixpoint lstrip (s : str) : str :=
  match s with
  | [] => []
  | c :: s' => if isspace c then lstrip s' else s
  end.

Definition rstrip (s : str) : str := rev (lstrip (rev s)).

Definition strip (s : str) : str := rstrip (lstrip s).

(** [sep.join(parts)]. *)
Fixpoint join (sep : str) (parts : list str) : str :=
  match parts with
  | [] => []
  | [p] => p
  | p :: rest => p ++ sep ++ join sep rest
  end.

(** [str.lower] restricted to ASCII letters; every other code point is kept.
    It agrees with Python's [str.lower] on ASCII text. *)
Definition ascii_lower_char (c : char) : char :=
  if ((65 <=? c) && (c <=? 90))%N then (c + 32)%N else c.

Definition ascii_lower (s : str) : str := List.map ascii_lower_char s.

(** ** Lists as Python has them *)

(** [l[:k]]: a negative bound counts from the end of the list. *)
Definition slice_to {A} (l : list A) (k : Z) : list A :=
  if k <? 0
  then firstn (Z.to_nat (Z.max 0 (Z.of_nat (length l) + k))) l
  else firstn (Z.to_nat k) l.

(** [sum(1 for x in l if f x)]: the builtin [sum] starts from 0 and adds the
    generated items from left to right. *)
Definition sum_ones {A} (f : A -> bool) (l : list A) : Z :=
  fold_left (fun acc x => if f x then acc + 1 else acc) l 0.

(** [list.sort(key=...)] is a stable sort on the key.  [insert_by] puts [x]
    in front of the first element whose key is not smaller, so an element
    stays in front of the later elements of equal key. *)
Fixpoint insert_by {A} (key : A -> Z) (x : A) (l : list A) : list A :=
  match l with
  | [] => [x]
  | y :: l' => if key x <=? key y then x :: l else y :: insert_by key x l'
  end.

Fixpoint sort_by {A} (key : A -> Z) (l : list A) : list A :=
  match l with
  | [] => []
  | x :: l' => insert_by key x (sort_by key l')
  end.

(** ** Tiny RAG (knowledge base) *)

Record TinyRAG := { docs : list str }.

(** [TinyRAG.__init__]. *)
Definition TinyRAG_init : TinyRAG :=
  {| docs :=
       [ lit "High CPU usage may indicate process bottlenecks.";
         lit "Disk space alerts can lead to service crashes.";
         lit "Network latency spikes may degrade performance.";
         lit "Memory leaks can cause application instability.";
         lit "Automatic remediation can restart services or free resources." ] |}.

Definition default_k : Z := 3.

Section Retrieve.

(** [str.lower]: the full Unicode case mapping is a table of the Python
    runtime, so the retriever is stated for an arbitrary one. *)
Variable lower : str -> str.

(** The score of one stored document for the split query. *)
Definition score (query_words : list str) (doc : str) : Z :=
  sum_ones (fun w => contains w (lower doc)) query_words.

(** The loop of [retrieve]: [scored] after the documents [ds] were visited. *)
Fixpoint score_docs (query_words : list str) (ds : list str)
         (scored : list (Z * str)) : list (Z * str) :=
  match ds with
  | [] => scored
  | doc :: ds' =>
      let s := score query_words doc in
      score_docs query_words ds'
                 (if 0 <? s then scored ++ [(s, doc)] else scored)
  end.

Definition retrieve (self : TinyRAG) (query : str) (k : Z) : list str :=
  let query_words := split (lower query) in
  let scored := score_docs query_words (docs self) [] in
  let scored := sort_by (fun x => - fst x) scored in
  List.map snd (slice_to scored k).

End Retrieve.

(** ** The retriever on a heap of list objects

    [self.docs] is a reference to a list object, [scored] a list object that
    [retrieve] creates, appends to and sorts in place.  An address is a
    position in the heap. *)

Inductive pyobj :=
| ObjStrList (items : list str)
| ObjScoredList (items : list (Z * str)).

Definition heap := list pyobj.
Definition addr := nat.

Definition alloc (h : heap) (o : pyobj) : heap * addr := (h ++ [o], length h).

Fixpoint write (h : heap) (a : addr) (o : pyobj) : heap :=
  match h, a with
  | [], _ => []
  | _ :: h', O => o :: h'
  | x :: h', S a' => x :: write h' a' o
  end.

Definition read_strs (h : heap) (a : addr) : option (list str) :=
  match nth_error h a with
  | Some (ObjStrList l) => Some l
  | _ => None
  end.

Definition read_scored (h : heap) (a : addr) : option (list (Z * str)) :=
  match nth_error h a with
  | Some (ObjScoredList l) => Some l
  | _ => None
  end.

(** [scored.append(item)]. *)
Definition list_append (h : heap) (a : addr) (item : Z * str) : option heap :=
  match read_scored h a with
  | Some l => Some (write h a (ObjScoredList (l ++ [item])))
  | None => None
  end.

(** [scored.sort(key=...)]. *)
Definition list_sort (h : heap) (a : addr) (key : Z * str -> Z) : option heap :=
  match read_scored h a with
  | Some l => Some (write h a (ObjScoredList (sort_by key l)))
  | None => None
  end.

Section RetrieveHeap.

Variable lower : str -> str.

(** [for doc in self.docs]: the list iterator reads position [i] of the
    list object as it is when the iteration reaches it. *)
Fixpoint retrieve_loop (fuel : nat) (query_words : list str)
         (self_docs scored : addr) (i : nat) (h : heap) : option heap :=
  match fuel with
  | O => None
  | S fuel' =>
      match read_strs h self_docs with
      | None => None
      | Some ds =>
          match nth_error ds i with
          | None => Some h
          | Some doc =>
              let s := score lower query_words doc in
              if 0 <? s
              then match list_append h scored (s, doc) with
                   | Some h' =>
                       retrieve_loop fuel' query_words self_docs scored (S i) h'
                   | None => None
                   end
              else retrieve_loop fuel' query_words self_docs scored (S i) h
          end
      end
  end.

Definition retrieve_heap (fuel : nat) (h : heap) (self_docs : addr)
           (query : str) (k : Z) : option (list str * heap) :=
  let query_words := split (lower query) in
  let '(h, scored) := alloc h (ObjScoredList []) in
  match retrieve_loop fuel query_words self_docs scored 0 h with
  | None => None
  | Some h =>
      match list_sort h scored (fun x => - fst x) with
      | None => None
      | Some h =>
          match read_scored h scored with
          | None => None
          | Some l => Some (List.map snd (slice_to l k), h)
          end
      end
  end.

End RetrieveHeap.

(** ** Parsed JSON and the Python operations applied to it *)

(** What [resp.json()] returns: [None], a [bool], an [int], a [float], a
    [str], a [list] or a [dict] with string keys, in insertion order. *)
#[local] Set Warnings "-register-all".
Inductive json :=
| JNull
| JBool (b : bool)
| JInt (n : Z)
| JFloat (f : spec_float)
| JStr (s : str)
| JArr (items : list json)
| JObj (fields : list (str * json)).

Inductive exn := TypeError | AttributeError | KeyError | IndexError.

Inductive result (A : Type) :=
| Returned (a : A)
| Raised (e : exn).
Arguments Returned {A} a.
Arguments Raised {A} e.

Definition bind {A B} (r : result A) (f : A -> result B) : result B :=
  match r with
  | Returned a => f a
  | Raised e => Raised e
  end.

Notation "x <- c ;; k" := (bind c (fun x => k))
  (at level 61, c at next level, right associativity).

(** [d.get(key)] on the fields of a dict. *)
Fixpoint dict_get (key : str) (fields : list (str * json)) : option json :=
  match fields with
  | [] => None
  | (k, v) :: rest => if str_eqb k key then Some v else dict_get key rest
  end.

(** Truth value of an object in a condition. *)
Definition truthy (v : json) : bool :=
  match v with
  | JNull => false
  | JBool b => b
  | JInt n => negb (n =? 0)
  | JFloat (S754_zero _) => false
  | JFloat _ => true
  | JStr s => match s with [] => false | _ => true end
  | JArr l => match l with [] => false | _ => true end
  | JObj o => match o with [] => false | _ => true end
  end.

(** [key in v] for a string [key]. *)
Definition py_in (key : str) (v : json) : result bool :=
  match v with
  | JObj o => Returned (match dict_get key o with Some _ => true | None => false end)
  | JArr l =>
      Returned (existsb (fun x => match x with JStr s => str_eqb s key | _ => false end) l)
  | JStr s => Returned (contains key s)
  | JNull | JBool _ | JInt _ | JFloat _ => Raised TypeError
  end.

(** [v[key]] for a string [key]. *)
Definition getitem_str (v : json) (key : str) : result json :=
  match v with
  | JObj o => match dict_get key o with Some x => Returned x | None => Raised KeyError end
  | _ => Raised TypeError
  end.

(** [v[0]]. *)
Definition getitem_0 (v : json) : result json :=
  match v with
  | JArr (x :: _) => Returned x
  | JArr [] => Raised IndexError
  | JStr (c :: _) => Returned (JStr [c])
  | JStr [] => Raised IndexError
  | JObj _ => Raised KeyError
  | JNull | JBool _ | JInt _ | JFloat _ => Raised TypeError
  end.

(** [v.get(key, default)]: only a dict has the method. *)
Definition py_get (v : json) (key : str) (default : json) : result json :=
  match v with
  | JObj o => Returned (match dict_get key o with Some x => x | None => default end)
  | _ => Raised AttributeError
  end.

(** The items that [for p in v] visits. *)
Definition py_iter (v : json) : result (list json) :=
  match v with
  | JArr l => Returned l
  | JStr s => Returned (List.map (fun c => JStr [c]) s)
  | JObj o => Returned (List.map (fun kv => JStr (fst kv)) o)
  | JNull | JBool _ | JInt _ | JFloat _ => Raised TypeError
  end.

(** [v.strip()]: only a string has the method. *)
Definition py_strip (v : json) : result str :=
  match v with
  | JStr s => Returned (strip s)
  | _ => Raised AttributeError
  end.

(** ** Gemini client *)

Definition MODEL_NAME : str := lit "gemini-2.0-flash-lite".

Definition API_URL : str :=
  lit "https://generativelanguage.googleapis.com/v1beta/models/"
  ++ MODEL_NAME ++ lit ":generateContent".

(** The arguments of [requests.post]. *)
Record request := {
  url : str;
  headers : list (str * str);
  params : list (str * str);
  payload : json;
  timeout : Z
}.

(** What the [try] block produces: an exception [e], of which the handler
    uses [str(e)], or the parsed body. *)
Inductive http_outcome :=
| RequestError (detail : str)
| Parsed (data : json).

(** The warning sign U+26A0 followed by the variation selector U+FE0F. *)
Definition warning_marker : str := [9888%N; 65039%N].

Definition no_usable_text : str :=
  warning_marker ++ lit " Gemini API returned no usable text.".

(** The double nearest to 0.2. *)
Definition temperature : spec_float := S754_finite false 7205759403792794 (-55).

Definition make_request (api_key prompt : str) (max_tokens : Z) : request :=
  {| url := API_URL;
     headers := [(lit "Content-Type", lit "application/json")];
     params := [(lit "key", api_key)];
     payload :=
       JObj [ (lit "contents",
               JArr [JObj [ (lit "role", JStr (lit "user"));
                            (lit "parts", JArr [JObj [(lit "text", JStr prompt)]]) ]]);
              (lit "generationConfig",
               JObj [ (lit "temperature", JFloat temperature);
                      (lit "maxOutputTokens", JInt max_tokens) ]) ];
     timeout := 30 |}.

(** The loop over [parts]: the text returned from inside the loop, or [None]
    when the loop runs to its end. *)
Fixpoint scan_parts (parts : list json) : result (option str) :=
  match parts with
  | [] => Returned None
  | p :: rest =>
      has_text <- py_in (lit "text") p ;;
      if has_text
      then text <- getitem_str p (lit "text") ;;
           if truthy text
           then stripped <- (text' <- getitem_str p (lit "text") ;; py_strip text') ;;
                Returned (Some stripped)
           else scan_parts rest
      else scan_parts rest
  end.

(** The part of [gemini_generate] after the [try] statement. *)
Definition extract_text (data : json) : result str :=
  has_candidates <- py_in (lit "candidates") data ;;
  candidates_ok <- (if has_candidates
                    then c <- getitem_str data (lit "candidates") ;; Returned (truthy c)
                    else Returned false) ;;
  if candidates_ok
  then candidates <- getitem_str data (lit "candidates") ;;
       cand <- getitem_0 candidates ;;
       content <- py_get cand (lit "content") (JObj []) ;;
       parts <- py_get content (lit "parts") (JArr []) ;;
       items <- py_iter parts ;;
       found <- scan_parts items ;;
       match found with
       | Some text => Returned text
       | None => Returned no_usable_text
       end
  else Returned no_usable_text.

(** [post] stands for [requests.post] followed by [resp.json()]. *)
Definition gemini_generate (post : request -> http_outcome)
           (api_key prompt : str) (max_tokens : Z) : result str :=
  match post (make_request api_key prompt max_tokens) with
  | RequestError e =>
      Returned (warning_marker ++ lit " Network/Request error: " ++ e)
  | Parsed data => extract_text data
  end.

(** ** Agentic pipeline *)

Definition LF : str := [10%N].

(** The f-string of [agentic_self_healing]: three fixed pieces of text
    around the two interpolated fields. *)
Definition prompt_head : str :=
  LF ++ lit "You are an expert Data Center AI assistant for self-healing infrastructure."
  ++ LF ++ lit "Analyze the following incident or system log and provide a proactive remediation plan."
  ++ LF ++ LF ++ lit "Incident:"
  ++ LF.

Definition prompt_middle : str :=
  LF ++ LF ++ lit "Knowledge Base:"
  ++ LF.

Definition prompt_tail : str :=
  LF ++ LF ++ lit "Tasks:"
  ++ LF ++ lit "1. Predict potential issues"
  ++ LF ++ lit "2. Generate an automatic remediation plan"
  ++ LF ++ lit "3. Suggest monitoring improvements"
  ++ LF ++ lit "4. Provide concise explanation for each step"
  ++ LF ++ LF ++ lit "Return a structured, actionable report."
  ++ LF.

Definition prompt_of (incident context : str) : str :=
  prompt_head ++ incident ++ prompt_middle ++ context ++ prompt_tail.

Definition agentic_self_healing (lower : str -> str) (post : request -> http_outcome)
           (api_key incident : str) (rag : TinyRAG) : result str :=
  let context := join (lit " ") (retrieve lower rag incident default_k) in
  let prompt := prompt_of incident context in
  gemini_generate post api_key prompt 350.

(** ** Vocabulary of the properties *)

(** The score as the specification words it: the number of distinct query
    tokens that occur in the lower-cased fact. *)
Definition distinct_token_score (lower : str -> str) (query doc : str) : Z :=
  Z.of_nat (length (nodup (list_eq_dec N.eq_dec)
                          (filter (fun w => contains w (lower doc))
                                  (split (lower query))))).

(** The [parts] that the client scans for a candidate shaped as the service
    documents it: an object whose [content], when present, is an object
    whose [parts], when present, is a list. *)
Definition candidate_parts (cand : json) : option (list json) :=
  match cand with
  | JObj c =>
      match dict_get (lit "content") c with
      | None => Some []
      | Some (JObj ct) =>
          match dict_get (lit "parts") ct with
          | None => Some []
          | Some (JArr ps) => Some ps
          | Some _ => None
          end
      | Some _ => None
      end
  | _ => None
  end.

(** A part without a non-empty text: an object whose [text] is absent or
    has a false truth value (the empty string, [None], ...). *)
Definition no_text (p : json) : bool :=
  match p with
  | JObj o =>
      match dict_get (lit "text") o with
      | None => true
      | Some v => negb (truthy v)
      end
  | _ => false
  end.

(** A part whose [text], when present, is a string or has a false truth
    value. *)
Definition text_ok (p : json) : bool :=
  match p with
  | JObj o =>
      match dict_get (lit "text") o with
      | None => true
      | Some (JStr _) => true
      | Some v => negb (truthy v)
      end
  | _ => false
  end.

Definition candidate_ok (cand : json) : bool :=
  match candidate_parts cand with
  | Some ps => forallb text_ok ps
  | None => false
  end.

(** A response the client handles without raising: an object whose
    [candidates] is absent, has a false truth value, or is a list that
    starts with a candidate of the documented shape. *)
Definition well_shaped (data : json) : bool :=
  match data with
  | JObj o =>
      match dict_get (lit "candidates") o with
      | None => true
      | Some (JArr (cand :: _)) => candidate_ok cand
      | Some v => negb (truthy v)
      end
  | _ => false
  end.

(** Document [i] of the store ranks before document [j] for the query
    words: a higher score, or the same score and an earlier position. *)
Definition ranks_before (lower : str -> str) (query_words : list str)
           (ds : list str) (i j : nat) : Prop :=
  let sc n := score lower query_words (nth n ds []) in
  sc j < sc i \/ (sc i = sc j /\ (i < j)%nat).

(** The order in which a stable sort on [key] leaves positions that were
    increasing: the smaller key first, and the smaller position first among
    equal keys. *)
Definition key_then_position (key : nat -> Z) (i j : nat) : Prop :=
  key i < key j \/ (key i = key j /\ (i < j)%nat).

(** The positions of the store that [retrieve] selects, in the order of
    the result. *)
Definition selected (lower : str -> str) (ds : list str) (qw : list str)
           (k : Z) : list nat :=
  slice_to
    (sort_by (fun i => - score lower qw (nth i ds []))
             (filter (fun i => 0 <? score lower qw (nth i ds []))
                     (seq 0 (length ds))))
    k.

(** ** Configuration and the page script *)

Definition GEMINI_API_KEY : str := lit "GEMINI_API_KEY".

(** [os.environ], a mapping from names to strings. *)
Definition environ := str -> option str.

(** What can end a run of the script: an exception of the client, or one
    raised inside a call into Streamlit's secrets or into the graph library.
    The script handles none of them. *)
Inductive script_exn :=
| ClientError (e : exn)
| SecretsError (detail : str)
| GraphError (detail : str).

Inductive outcome (A : Type) :=
| Done (a : A)
| Failed (e : script_exn).
Arguments Done {A} a.
Arguments Failed {A} e.

(** [st.secrets.get(key, default)] is a call into Streamlit: for a key, a
    default and the environment it finds, it raises, or it returns a string
    and leaves an environment. *)
Definition secrets_lookup := str -> str -> environ -> outcome (str * environ).

(** [get_api_key]: the arguments of [os.getenv] are evaluated first, so the
    secrets are looked up before the environment is read, and the
    environment is read as the lookup leaves it. *)
Definition get_api_key (secrets_get : secrets_lookup) (env : environ)
  : outcome (str * environ) :=
  match secrets_get GEMINI_API_KEY [] env with
  | Failed e => Failed e
  | Done (default, env') =>
      Done (match env' GEMINI_API_KEY with
            | Some v => v
            | None => default
            end, env')
  end.

(** What a run of the script asks of Streamlit and of the graph object, in
    the order of the calls. *)
Inductive ui_event :=
| StSetPageConfig (page_title layout : str)
| StTitle (body : str)
| StTextArea (label : str) (height : Z) (placeholder : str)
| StButton (label : str)
| StError (body : str)
| StWarning (body : str)
| StSpinner (text : str)
| StSubheader (body : str)
| StMarkdown (body : str)
| StInfo (body : str)
| GraphNew
| GraphAddNode (name : str) (length_field : Z)
| GraphAddEdge (source target : str).

(** A piece of a run: the calls made so far, and a value or the exception
    that ended the run. *)
Definition run (A : Type) : Type := list ui_event * outcome A.

(** A call into Streamlit's display functions, taken to return. *)
Definition emit (e : ui_event) : run unit := ([e], Done tt).

(** A call into the graph library: [raises] tells for each call whether the
    library raises in it; a call that raises is not recorded. *)
Definition graph_call (raises : ui_event -> option str) (e : ui_event) : run unit :=
  match raises e with
  | Some detail => ([], Failed (GraphError detail))
  | None => ([e], Done tt)
  end.

Definition and_then {A B} (m : run A) (f : A -> run B) : run B :=
  match m with
  | (events, Done a) => let '(events', r) := f a in (events ++ events', r)
  | (events, Failed e) => (events, Failed e)
  end.

Notation "m >>> k" := (and_then m (fun _ => k))
  (at level 62, right associativity).

Definition skip : run unit := ([], Done tt).

Definition page_events : list ui_event :=
  [ StSetPageConfig (lit "Self-Healing Infrastructure AI") (lit "wide");
    StTitle (129302%N :: lit " MANISH - DATA CENTER - Self-Healing Infrastructure Co-Pilot");
    StTextArea (lit "Paste recent system logs, alerts, or incident summary:") 200
               (lit "Example: CPU spikes to 95%, Disk space < 5%, Service X failed...");
    StButton (lit "Run Self-Healing Analysis") ].

Definition key_missing : ui_event :=
  StError (lit "GEMINI_API_KEY not found. Set environment variable or Streamlit secrets.").

Definition input_missing : ui_event :=
  StWarning (lit "Please enter system logs or incidents.").

Definition spinner : ui_event :=
  StSpinner (lit "Analyzing and generating remediation plan...").

Definition report_header : ui_event :=
  StSubheader (128221%N :: lit " Self-Healing Report").

Section Script.

(** The surroundings of one run: the case mapping, the secrets lookup, the
    transport, whether [import langgraph] succeeded, and in which calls the
    graph library raises. *)
Variable lower : str -> str.
Variable secrets_get : secrets_lookup.
Variable post : request -> http_outcome.
Variable LANGGRAPH_AVAILABLE : bool.
Variable graph_raises : ui_event -> option str.

(** The graph bookkeeping before and after the analysis. *)
Definition graph_before (incident_input : str) : run unit :=
  if LANGGRAPH_AVAILABLE
  then graph_call graph_raises GraphNew >>>
       graph_call graph_raises
         (GraphAddNode (lit "incident_input") (Z.of_nat (length incident_input)))
  else skip.

Definition graph_after (report : str) : run unit :=
  if LANGGRAPH_AVAILABLE
  then graph_call graph_raises
         (GraphAddNode (lit "self_healing_output") (Z.of_nat (length report))) >>>
       graph_call graph_raises
         (GraphAddEdge (lit "incident_input") (lit "self_healing_output")) >>>
       emit (StInfo (lit "Pipeline recorded in LangGraph (local)."))
  else skip.

(** The body of [if st.button(...):] for the text of the input area and the
    environment of the process. *)
Definition run_analysis (incident_input : str) (env : environ) : run unit :=
  match get_api_key secrets_get env with
  | Failed e => ([], Failed e)
  | Done (api_key, _) =>
      match api_key with
      | [] => emit key_missing
      | _ :: _ =>
          match strip incident_input with
          | [] => emit input_missing
          | _ :: _ =>
              let rag := TinyRAG_init in
              graph_before incident_input >>>
              emit spinner >>>
              match agentic_self_healing lower post api_key
                                         (strip incident_input) rag with
              | Raised e => ([], Failed (ClientError e))
              | Returned report =>
                  emit report_header >>>
                  emit (StMarkdown report) >>>
                  graph_after report
              end
          end
      end
  end.

(** One run of the script: [clicked] is what [st.button] returns. *)
Definition script (incident_input : str) (clicked : bool) (env : environ)
  : run unit :=
  (page_events, Done tt) >>>
  (if clicked then run_analysis incident_input env else skip).

End Script.

(** ** Vocabulary of the further properties *)

(** A fact matches when some query word occurs in its lower-cased text. *)
Definition matches (lower : str -> str) (query_words : list str) (doc : str) : bool :=
  existsb (fun w => contains w (lower doc)) query_words.

(** The number of stored facts that match. *)
Definition match_count (lower : str -> str) (query_words : list str)
           (ds : list str) : nat :=
  length (filter (matches lower query_words) ds).

(** The positions of the matching facts, as [scored] holds them after the
    sort. *)
Definition ranking (lower : str -> str) (ds : list str) (qw : list str) : list nat :=
  sort_by (fun i => - score lower qw (nth i ds []))
          (filter (fun i => 0 <? score lower qw (nth i ds []))
                  (seq 0 (length ds))).

(** * Properties *)

(** ** Strings *)

Lemma startswith_spec (p s : str) :
  startswith p s = true <-> exists post, s = p ++ post.
Proof.
  revert s; induction p as [|a p IH]; intros s; simpl.
  - split; [intros _; now exists s | reflexivity].
  - destruct s as [|b s].
    + split; [discriminate | intros [post H]; discriminate].
    + rewrite andb_true_iff, N.eqb_eq, IH. split.
      * intros [-> [post ->]]. now exists post.
      * intros [post H]. injection H as -> ->. split; [reflexivity | now exists post].
Qed.

Lemma contains_spec (w s : str) : contains w s = true <-> Substring w s.
Proof.
  unfold Substring. induction s as [|c s IH].
  - simpl. rewrite orb_false_r, startswith_spec. split.
    + intros [post H]. now exists [], post.
    + intros [pre [post H]]. destruct pre; [now exists post | discriminate].
  - cbn [contains]. rewrite orb_true_iff, startswith_spec, IH. split.
    + intros [[post H] | [pre [post H]]].
      * now exists [], post.
      * exists (c :: pre), post. simpl. now f_equal.
    + intros [[|c' pre] [post H]].
      * left. now exists post.
      * right. injection H as _ H. now exists pre, post.
Qed.

Lemma contains_false (w s : str) : contains w s = false <-> ~ Substring w s.
Proof.
  rewrite <- contains_spec. destruct (contains w s); split; congruence.
Qed.

Lemma lstrip_spec (s : str) :
  exists lead, s = lead ++ lstrip s /\ forallb isspace lead = true.
Proof.
  induction s as [|c s [lead [E F]]]; simpl.
  - now exists [].
  - destruct (isspace c) eqn:Hc.
    + exists (c :: lead). simpl. rewrite Hc, F. split; [now f_equal | reflexivity].
    + now exists [].
Qed.

Lemma lstrip_head (s : str) :
  match lstrip s with [] => True | c :: _ => isspace c = false end.
Proof.
  induction s as [|c s IH]; simpl; [exact I|].
  destruct (isspace c) eqn:Hc; [exact IH | exact Hc].
Qed.

(** [strip] removes exactly the whitespace around the text: what is cut on
    each side is whitespace, and what is left neither starts nor ends with a
    whitespace character. *)
Lemma strip_spec (s : str) :
  exists lead trail,
    s = lead ++ strip s ++ trail
    /\ forallb isspace lead = true /\ forallb isspace trail = true
    /\ match strip s with [] => True | c :: _ => isspace c = false end
    /\ match rev (strip s) with [] => True | c :: _ => isspace c = false end.
Proof.
  unfold strip, rstrip.
  destruct (lstrip_spec s) as [lead [E1 F1]].
  destruct (lstrip_spec (rev (lstrip s))) as [tr [E2 F2]].
  exists lead, (rev tr). repeat split.
  - rewrite <- rev_app_distr, <- E2, rev_involutive. exact E1.
  - exact F1.
  - rewrite forallb_forall in *. intros x Hx. apply F2. now apply in_rev.
  - pose proof (lstrip_head s) as Hh.
    pose proof (lstrip_head (rev (lstrip s))) as Ht.
    set (m := lstrip (rev (lstrip s))) in *.
    assert (Em : lstrip s = rev m ++ rev tr).
    { rewrite <- rev_app_distr, <- E2, rev_involutive. reflexivity. }
    destruct (rev m) as [|c r] eqn:Er; [exact I|].
    rewrite Em in Hh. exact Hh.
  - rewrite rev_involutive. apply lstrip_head.
Qed.

(** ** Lists *)

Lemma sum_ones_filter {A} (f : A -> bool) (l : list A) :
  sum_ones f l = Z.of_nat (length (filter f l)).
Proof.
  unfold sum_ones.
  assert (G : forall acc,
             fold_left (fun acc x => if f x then acc + 1 else acc) l acc
             = acc + Z.of_nat (length (filter f l))).
  { induction l as [|x l IH]; intros acc; simpl; [lia|].
    rewrite IH. destruct (f x); simpl length; lia. }
  rewrite G. lia.
Qed.

Lemma insert_by_In {A} (key : A -> Z) (x y : A) (l : list A) :
  In y (insert_by key x l) <-> y = x \/ In y l.
Proof.
  induction l as [|z l IH]; simpl.
  - intuition congruence.
  - destruct (key x <=? key z); simpl; rewrite ?IH; intuition congruence.
Qed.

Lemma sort_by_In {A} (key : A -> Z) (y : A) (l : list A) :
  In y (sort_by key l) <-> In y l.
Proof.
  induction l as [|x l IH]; simpl; [reflexivity|].
  rewrite insert_by_In, IH. intuition congruence.
Qed.

Lemma insert_by_length {A} (key : A -> Z) (x : A) (l : list A) :
  length (insert_by key x l) = S (length l).
Proof.
  induction l as [|z l IH]; simpl; [reflexivity|].
  destruct (key x <=? key z); simpl; congruence.
Qed.

Lemma sort_by_length {A} (key : A -> Z) (l : list A) :
  length (sort_by key l) = length l.
Proof.
  induction l as [|x l IH]; simpl; [reflexivity|].
  now rewrite insert_by_length, IH.
Qed.

Lemma insert_by_map {A B} (g : A -> B) (key : B -> Z) (x : A) (l : list A) :
  insert_by key (g x) (List.map g l) = List.map g (insert_by (fun a => key (g a)) x l).
Proof.
  induction l as [|z l IH]; simpl; [reflexivity|].
  destruct (key (g x) <=? key (g z)); simpl; [reflexivity | now rewrite IH].
Qed.

Lemma sort_by_map {A B} (g : A -> B) (key : B -> Z) (l : list A) :
  sort_by key (List.map g l) = List.map g (sort_by (fun a => key (g a)) l).
Proof.
  induction l as [|x l IH]; simpl; [reflexivity|].
  now rewrite IH, insert_by_map.
Qed.

Lemma slice_to_map {A B} (g : A -> B) (l : list A) (k : Z) :
  slice_to (List.map g l) k = List.map g (slice_to l k).
Proof.
  unfold slice_to. rewrite length_map.
  destruct (k <? 0); now rewrite firstn_map.
Qed.

Lemma slice_to_prefix {A} (l : list A) (k : Z) :
  exists n, slice_to l k = firstn n l.
Proof. unfold slice_to. destruct (k <? 0); eauto. Qed.

Lemma slice_to_length {A} (l : list A) (k : Z) :
  0 <= k -> Z.of_nat (length (slice_to l k)) <= k.
Proof.
  intros Hk. unfold slice_to.
  destruct (k <? 0) eqn:E; [apply Z.ltb_lt in E; lia|].
  rewrite length_firstn. lia.
Qed.

Lemma slice_to_length_le {A} (l : list A) (k : Z) :
  (length (slice_to l k) <= length l)%nat.
Proof.
  destruct (slice_to_prefix l k) as [n ->]. rewrite length_firstn. lia.
Qed.

Lemma In_firstn {A} (x : A) (n : nat) (l : list A) :
  In x (firstn n l) -> In x l.
Proof.
  intros H. rewrite <- (firstn_skipn n l). apply in_or_app. now left.
Qed.

Lemma StronglySorted_firstn {A} (R : A -> A -> Prop) (n : nat) (l : list A) :
  StronglySorted R l -> StronglySorted R (firstn n l).
Proof.
  intros H. revert n. induction H as [|x l Hs IH Hf]; intros [|n]; simpl;
    try constructor.
  - apply IH.
  - rewrite Forall_forall in *. intros y Hy. eapply Hf, In_firstn, Hy.
Qed.

Lemma StronglySorted_nth {A} (R : A -> A -> Prop) (d : A) (l : list A) :
  StronglySorted R l ->
  forall a b, (a < b < length l)%nat -> R (nth a l d) (nth b l d).
Proof.
  intros H. induction H as [|x l Hs IH Hf]; intros a b Hab; simpl in Hab; [lia|].
  destruct b as [|b]; [lia|]. destruct a as [|a]; simpl.
  - rewrite Forall_forall in Hf. apply Hf, nth_In. lia.
  - apply IH. lia.
Qed.

Lemma StronglySorted_impl {A} (R S : A -> A -> Prop) (l : list A) :
  (forall x y, R x y -> S x y) -> StronglySorted R l -> StronglySorted S l.
Proof.
  intros HRS H. induction H as [|x l Hs IH Hf]; constructor; [exact IH|].
  rewrite Forall_forall in *. auto.
Qed.

Lemma StronglySorted_filter {A} (R : A -> A -> Prop) (f : A -> bool) (l : list A) :
  StronglySorted R l -> StronglySorted R (filter f l).
Proof.
  intros H. induction H as [|x l Hs IH Hf]; simpl; [constructor|].
  destruct (f x); [constructor|]; try exact IH.
  rewrite Forall_forall in *. intros y Hy. apply Hf.
  apply filter_In in Hy. tauto.
Qed.

Lemma StronglySorted_seq (a n : nat) : StronglySorted lt (seq a n).
Proof.
  revert a. induction n as [|n IH]; intros a; simpl; constructor; [apply IH|].
  rewrite Forall_forall. intros y Hy. apply in_seq in Hy. lia.
Qed.

Lemma StronglySorted_NoDup {A} (R : A -> A -> Prop) (l : list A) :
  (forall x, ~ R x x) -> StronglySorted R l -> NoDup l.
Proof.
  intros Hirr H. induction H as [|x l Hs IH Hf]; constructor; [|exact IH].
  rewrite Forall_forall in Hf. intros Hin. exact (Hirr x (Hf x Hin)).
Qed.

Lemma insert_by_stable (key : nat -> Z) (x : nat) (l : list nat) :
  Forall (lt x) l ->
  StronglySorted (key_then_position key) l ->
  StronglySorted (key_then_position key) (insert_by key x l).
Proof.
  intros Hx H. induction H as [|y l Hs IH Hf]; simpl.
  - repeat constructor.
  - inversion Hx as [|? ? Hxy Hxl]; subst.
    destruct (key x <=? key y) eqn:E.
    + apply Z.leb_le in E. constructor; [now constructor|].
      rewrite Forall_forall in *. intros z [<- | Hz].
      * unfold key_then_position. lia.
      * specialize (Hf z Hz). specialize (Hxl z Hz).
        unfold key_then_position in *. lia.
    + apply Z.leb_gt in E. constructor; [now apply IH|].
      rewrite Forall_forall in *. intros z Hz.
      apply insert_by_In in Hz. destruct Hz as [-> | Hz].
      * unfold key_then_position. lia.
      * now apply Hf.
Qed.

Lemma sort_by_stable (key : nat -> Z) (l : list nat) :
  StronglySorted lt l -> StronglySorted (key_then_position key) (sort_by key l).
Proof.
  intros H. induction H as [|x l Hs IH Hf]; simpl; [constructor|].
  apply insert_by_stable; [|exact IH].
  rewrite Forall_forall in *. intros y Hy. apply Hf. now apply sort_by_In in Hy.
Qed.

Lemma map_nth_seq (ds : list str) :
  List.map (fun i => nth i ds []) (seq 0 (length ds)) = ds.
Proof.
  induction ds as [|d ds IH]; simpl; [reflexivity|].
  f_equal. rewrite <- seq_shift, map_map. exact IH.
Qed.

(** ** The retriever *)

Section RetrieveFacts.

Variable lower : str -> str.

Lemma score_docs_spec (qw : list str) (ds : list str) (acc : list (Z * str)) :
  score_docs lower qw ds acc
  = acc ++ List.map (fun d => (score lower qw d, d))
                    (filter (fun d => 0 <? score lower qw d) ds).
Proof.
  revert acc. induction ds as [|d ds IH]; intros acc; simpl.
  - now rewrite app_nil_r.
  - rewrite IH. destruct (0 <? score lower qw d); simpl; [|reflexivity].
    now rewrite <- app_assoc.
Qed.

Lemma retrieve_selected (rag : TinyRAG) (query : str) (k : Z) :
  retrieve lower rag query k
  = List.map (fun i => nth i (docs rag) [])
             (selected lower (docs rag) (split (lower query)) k).
Proof.
  unfold retrieve, selected. set (qw := split (lower query)).
  set (ds := docs rag). rewrite score_docs_spec. simpl app.
  rewrite <- (map_nth_seq ds) at 1.
  rewrite filter_map_swap, map_map.
  rewrite (sort_by_map (fun i => (score lower qw (nth i ds []), nth i ds []))
                       (fun x => - fst x)).
  rewrite slice_to_map, map_map. reflexivity.
Qed.

Lemma selected_in_store (ds : list str) (qw : list str) (k : Z) :
  Forall (fun i => (i < length ds)%nat /\ 0 < score lower qw (nth i ds []))
         (selected lower ds qw k).
Proof.
  rewrite Forall_forall. intros i Hi. unfold selected in Hi.
  destruct (slice_to_prefix
              (sort_by (fun i => - score lower qw (nth i ds []))
                       (filter (fun i => 0 <? score lower qw (nth i ds []))
                               (seq 0 (length ds)))) k) as [n E].
  rewrite E in Hi. apply In_firstn in Hi.
  apply sort_by_In, filter_In in Hi. destruct Hi as [Hs Hp].
  apply in_seq in Hs. apply Z.ltb_lt in Hp. lia.
Qed.

Lemma selected_ranked (ds : list str) (qw : list str) (k : Z) :
  StronglySorted (ranks_before lower qw ds) (selected lower ds qw k).
Proof.
  unfold selected.
  destruct (slice_to_prefix
              (sort_by (fun i => - score lower qw (nth i ds []))
                       (filter (fun i => 0 <? score lower qw (nth i ds []))
                               (seq 0 (length ds)))) k) as [n ->].
  apply StronglySorted_firstn.
  apply StronglySorted_impl
    with (R := key_then_position (fun i => - score lower qw (nth i ds []))).
  - unfold key_then_position, ranks_before. intros x y. lia.
  - apply sort_by_stable, StronglySorted_filter, StronglySorted_seq.
Qed.

End RetrieveFacts.

(** ** Counting query words *)

Section Counting.

Context {A : Type} (dec : forall x y : A, {x = y} + {x <> y}).

Lemma list_sum_map_add (f g : A -> nat) (u : list A) :
  list_sum (List.map (fun w => (f w + g w)%nat) u)
  = (list_sum (List.map f u) + list_sum (List.map g u))%nat.
Proof. induction u as [|w u IH]; simpl; lia. Qed.

Lemma list_sum_indicator (x : A) (u : list A) :
  NoDup u ->
  list_sum (List.map (fun w => if dec x w then 1%nat else 0%nat) u)
  = if in_dec dec x u then 1%nat else 0%nat.
Proof.
  intros H. induction H as [|w u Hw Hu IH]; simpl; [reflexivity|].
  rewrite IH. destruct (dec w x) as [->|Hne].
  - destruct (dec x x); [|congruence].
    destruct (in_dec dec x u); [contradiction | reflexivity].
  - destruct (dec x w); [congruence|].
    destruct (in_dec dec x u); reflexivity.
Qed.

(** A list is as long as the occurrences of its distinct elements taken
    together. *)
Lemma length_by_occurrences (m u : list A) :
  NoDup u -> (forall x, In x m -> In x u) ->
  length m = list_sum (List.map (count_occ dec m) u).
Proof.
  intros Hu. induction m as [|x m IH]; intros Hin.
  - clear Hu Hin. induction u as [|w u IHu]; simpl; [reflexivity | exact IHu].
  - rewrite (map_ext _ (fun w => ((if dec x w then 1 else 0) + count_occ dec m w)%nat)).
    + rewrite list_sum_map_add, list_sum_indicator by exact Hu.
      destruct (in_dec dec x u) as [_|Hn]; [|exfalso; apply Hn, Hin; now left].
      simpl. f_equal. apply IH. intros y Hy. apply Hin. now right.
    + intros w. simpl. destruct (dec x w); reflexivity.
Qed.

Lemma count_occ_filter (f : A -> bool) (l : list A) (w : A) :
  f w = true -> count_occ dec (filter f l) w = count_occ dec l w.
Proof.
  intros Hw. induction l as [|x l IH]; simpl; [reflexivity|].
  destruct (f x) eqn:Hx; simpl.
  - destruct (dec x w); now rewrite IH.
  - destruct (dec x w) as [->|_]; [congruence | exact IH].
Qed.

End Counting.

(** C2 (as stated, fails): the query "disk disk" has one distinct token, and
    it occurs in the disk-space fact, yet the fact scores 2. *)
Lemma score_counts_repeated_token :
  score ascii_lower (split (ascii_lower (lit "disk disk")))
        (lit "Disk space alerts can lead to service crashes.") = 2
  /\ distinct_token_score ascii_lower (lit "disk disk")
        (lit "Disk space alerts can lead to service crashes.") = 1.
Proof. split; vm_compute; reflexivity. Qed.

(** C2 (amended): the score of a fact is the number of query-token
    occurrences whose token is a substring of the lower-cased fact: every
    distinct matching token counts once for each time it occurs in the
    query. *)
Theorem score_counts_occurrences (lower : str -> str) (query doc : str) :
  let query_words := split (lower query) in
  let matching :=
    nodup (list_eq_dec N.eq_dec)
          (filter (fun w => contains w (lower doc)) query_words) in
  (forall w, In w matching <-> In w query_words /\ Substring w (lower doc))
  /\ score lower query_words doc
     = Z.of_nat (list_sum (List.map (count_occ (list_eq_dec N.eq_dec) query_words)
                                    matching)).
Proof.
  intros qw matching. split.
  - intros w. unfold matching. rewrite nodup_In, filter_In, contains_spec. tauto.
  - unfold score. rewrite sum_ones_filter. f_equal.
    rewrite (length_by_occurrences (list_eq_dec N.eq_dec) _ matching).
    + f_equal. apply map_ext_in. intros w Hw. apply count_occ_filter.
      unfold matching in Hw. rewrite nodup_In, filter_In in Hw. tauto.
    + apply NoDup_nodup.
    + intros x Hx. unfold matching. now rewrite nodup_In.
Qed.

(** The three facts that mention "can", the two that also mention "service"
    first, and the store order kept among equal scores. *)
Example retrieve_can_service :
  retrieve ascii_lower TinyRAG_init (lit "Can SERVICE") 3
  = List.map (fun i => nth i (docs TinyRAG_init) []) [1; 4; 3]%nat
  /\ retrieve ascii_lower TinyRAG_init (lit "disk space alerts") 3
     = [lit "Disk space alerts can lead to service crashes."].
Proof. split; vm_compute; reflexivity. Qed.

(** C3: the result of [retrieve] lists store positions in an order in which
    scores never increase, and of two results with the same score the one
    stored first comes first. *)
Theorem retrieve_sorted_stable (lower : str -> str) (rag : TinyRAG)
        (query : str) (k : Z) :
  let sc i := score lower (split (lower query)) (nth i (docs rag) []) in
  exists idxs : list nat,
    retrieve lower rag query k = List.map (fun i => nth i (docs rag) []) idxs
    /\ Forall (fun i => (i < length (docs rag))%nat) idxs
    /\ forall a b, (a < b < length idxs)%nat ->
         sc (nth b idxs O) <= sc (nth a idxs O)
         /\ (sc (nth a idxs O) = sc (nth b idxs O) ->
             (nth a idxs O < nth b idxs O)%nat).
Proof.
  intros sc. exists (selected lower (docs rag) (split (lower query)) k).
  split; [apply retrieve_selected|]. split.
  - eapply Forall_impl; [|apply selected_in_store]. simpl. tauto.
  - intros a b Hab.
    pose proof (StronglySorted_nth _ O _
                  (selected_ranked lower (docs rag) (split (lower query)) k)
                  a b Hab) as H.
    unfold ranks_before in H. cbv zeta in H. subst sc. cbv beta. lia.
Qed.

(** C4: for a bound [k >= 0], [retrieve] returns at most [k] facts and at
    most as many facts as the store holds. *)
Theorem retrieve_length (lower : str -> str) (rag : TinyRAG)
        (query : str) (k : Z) :
  0 <= k ->
  Z.of_nat (length (retrieve lower rag query k)) <= k
  /\ (length (retrieve lower rag query k) <= length (docs rag))%nat.
Proof.
  intros Hk. unfold retrieve. rewrite length_map. split.
  - now apply slice_to_length.
  - etransitivity; [apply slice_to_length_le|].
    rewrite sort_by_length, score_docs_spec. simpl app.
    rewrite length_map. clear.
    induction (docs rag) as [|d ds IH]; simpl; [lia|].
    destruct (0 <? _); simpl; lia.
Qed.

Lemma retrieve_length_witness :
  0 <= 7
  /\ Z.of_nat (length (retrieve ascii_lower TinyRAG_init (lit "a e") 7)) <= 7
  /\ (length (retrieve ascii_lower TinyRAG_init (lit "a e") 7)
      <= length (docs TinyRAG_init))%nat.
Proof.
  split; [lia|]. apply (retrieve_length ascii_lower TinyRAG_init (lit "a e") 7). lia.
Defined.

(** C5: with the bound 0 the result is empty, and a query none of whose
    lower-cased tokens occurs in a lower-cased fact retrieves nothing. *)
Theorem retrieve_empty (lower : str -> str) (rag : TinyRAG)
        (query : str) (k : Z) :
  (k = 0 -> retrieve lower rag query k = [])
  /\ ((forall w d, In w (split (lower query)) -> In d (docs rag) ->
                   ~ Substring w (lower d)) ->
      retrieve lower rag query k = []).
Proof.
  split.
  - intros ->. unfold retrieve, slice_to. reflexivity.
  - intros H. unfold retrieve. rewrite score_docs_spec. simpl app.
    replace (filter _ (docs rag)) with (@nil str).
    { unfold slice_to. simpl. destruct (k <? 0); now rewrite firstn_nil. }
    symmetry. induction (docs rag) as [|d ds IH]; simpl; [reflexivity|].
    assert (Hd : score lower (split (lower query)) d = 0).
    { unfold score. rewrite sum_ones_filter.
      replace (filter _ (split (lower query))) with (@nil str); [reflexivity|].
      symmetry. generalize (fun w Hw => H w d Hw (or_introl eq_refl)).
      clear. induction (split (lower query)) as [|w ws IHw]; intros Hn; simpl;
        [reflexivity|].
      rewrite (proj2 (contains_false w (lower d))) by (apply Hn; now left).
      apply IHw. intros w' Hw'. apply Hn. now right. }
    rewrite Hd. simpl. apply IH. intros w d' Hw Hd'. apply H; [exact Hw | now right].
Qed.

Lemma retrieve_empty_witness :
  retrieve ascii_lower TinyRAG_init (lit "disk space alerts") 0 = []
  /\ retrieve ascii_lower TinyRAG_init (lit "xyz unrelated term") 3 = []
  /\ retrieve ascii_lower TinyRAG_init [] 3 = [].
Proof.
  split; [|split].
  - apply (proj1 (retrieve_empty ascii_lower TinyRAG_init (lit "disk space alerts") 0)).
    reflexivity.
  - apply (proj2 (retrieve_empty ascii_lower TinyRAG_init (lit "xyz unrelated term") 3)).
    intros w d Hw Hd. apply contains_false.
    vm_compute in Hw. vm_compute in Hd.
    repeat (destruct Hw as [<- | Hw]; [repeat (destruct Hd as [<- | Hd]; [vm_compute; reflexivity|]); destruct Hd|]).
    destruct Hw.
  - apply (proj2 (retrieve_empty ascii_lower TinyRAG_init [] 3)).
    intros w d Hw. destruct Hw.
Defined.

(** ** The retriever on the heap *)

Lemma nth_error_write_same (h : heap) (a : addr) (o : pyobj) :
  (a < length h)%nat -> nth_error (write h a o) a = Some o.
Proof.
  revert a. induction h as [|x h IH]; intros [|a] Ha; simpl in *; try lia.
  - reflexivity.
  - apply IH. lia.
Qed.

Lemma nth_error_write_other (h : heap) (a b : addr) (o : pyobj) :
  a <> b -> nth_error (write h a o) b = nth_error h b.
Proof.
  revert a b. induction h as [|x h IH]; intros [|a] [|b] Hab; simpl;
    try reflexivity; try congruence.
  apply IH. congruence.
Qed.

Lemma read_scored_bound (h : heap) (a : addr) (l : list (Z * str)) :
  read_scored h a = Some l -> (a < length h)%nat.
Proof.
  unfold read_scored. intros H. apply nth_error_Some.
  destruct (nth_error h a); congruence.
Qed.

Lemma read_strs_bound (h : heap) (a : addr) (l : list str) :
  read_strs h a = Some l -> (a < length h)%nat.
Proof.
  unfold read_strs. intros H. apply nth_error_Some.
  destruct (nth_error h a); congruence.
Qed.

Lemma skipn_nth_error {A} (l : list A) (i : nat) (x : A) :
  nth_error l i = Some x -> skipn i l = x :: skipn (S i) l.
Proof.
  revert i. induction l as [|y l IH]; intros [|i] H; simpl in *; try discriminate.
  - congruence.
  - now apply IH.
Qed.

Section RetrieveHeapFacts.

Variable lower : str -> str.

(** The loop appends to [scored] what the pure loop computes for the
    documents from position [i] on, and writes to no other object. *)
Lemma retrieve_loop_spec (qw : list str) (a s : addr) :
  a <> s ->
  forall fuel i h ds acc,
    read_strs h a = Some ds ->
    read_scored h s = Some acc ->
    (length ds - i < fuel)%nat ->
    exists h',
      retrieve_loop lower fuel qw a s i h = Some h'
      /\ read_scored h' s = Some (score_docs lower qw (skipn i ds) acc)
      /\ forall b, b <> s -> nth_error h' b = nth_error h b.
Proof.
  intros Has. induction fuel as [|fuel IH]; intros i h ds acc Hd Hs Hf; [lia|].
  simpl. rewrite Hd. destruct (nth_error ds i) as [doc|] eqn:E.
  - assert (Hi : (i < length ds)%nat) by (apply nth_error_Some; congruence).
    rewrite (skipn_nth_error _ _ _ E). simpl score_docs.
    destruct (0 <? score lower qw doc).
    + unfold list_append. rewrite Hs.
      set (h1 := write h s (ObjScoredList (acc ++ [(score lower qw doc, doc)]))).
      destruct (IH (S i) h1 ds (acc ++ [(score lower qw doc, doc)]))
        as [h' [Hr [Hs' Hfr]]].
      * unfold read_strs, h1. rewrite nth_error_write_other by congruence. exact Hd.
      * unfold read_scored, h1.
        now rewrite nth_error_write_same by (eapply read_scored_bound; eauto).
      * lia.
      * exists h'. repeat split; [exact Hr | exact Hs' |].
        intros b Hb. rewrite Hfr by exact Hb.
        unfold h1. apply nth_error_write_other. congruence.
    + destruct (IH (S i) h ds acc Hd Hs) as [h' [Hr [Hs' Hfr]]]; [lia|].
      exists h'. auto.
  - apply nth_error_None in E. rewrite skipn_all2 by exact E.
    exists h. simpl. auto.
Qed.

(** With fuel for one step more than the store has documents, the method on
    the heap returns what the pure [retrieve] returns for the stored list,
    and every object that existed before the call is as it was. *)
Lemma retrieve_heap_spec (fuel : nat) (h : heap) (a : addr) (ds : list str)
      (query : str) (k : Z) :
  read_strs h a = Some ds ->
  (length ds < fuel)%nat ->
  exists h',
    retrieve_heap lower fuel h a query k
    = Some (retrieve lower {| docs := ds |} query k, h')
    /\ forall b, (b < length h)%nat -> nth_error h' b = nth_error h b.
Proof.
  intros Hd Hf. pose proof (read_strs_bound _ _ _ Hd) as Ha.
  unfold retrieve_heap, alloc.
  set (s := length h). set (h0 := h ++ [ObjScoredList []]).
  assert (Hd0 : read_strs h0 a = Some ds).
  { unfold read_strs, h0. rewrite nth_error_app1 by exact Ha. exact Hd. }
  assert (Hs0 : read_scored h0 s = Some []).
  { unfold read_scored, h0, s. rewrite nth_error_app2 by lia.
    now rewrite Nat.sub_diag. }
  destruct (retrieve_loop_spec (split (lower query)) a s ltac:(unfold s; lia)
                               fuel O h0 ds [] Hd0 Hs0 ltac:(lia))
    as [h1 [Hr [Hs1 Hfr]]].
  rewrite Hr. unfold list_sort. rewrite Hs1.
  pose proof (read_scored_bound _ _ _ Hs1) as Hb1.
  unfold read_scored at 1. rewrite nth_error_write_same by exact Hb1.
  eexists. split; [reflexivity|].
  intros b Hb. rewrite nth_error_write_other by (unfold s; lia).
  rewrite Hfr by (unfold s; lia).
  unfold h0. now rewrite nth_error_app1.
Qed.

End RetrieveHeapFacts.

(** C10: a call of [retrieve] returns facts of the store, no store position
    twice, and leaves the list object of the store, like every other object
    that existed before the call, as it was. *)
Theorem retrieve_from_store_unchanged (lower : str -> str) (fuel : nat)
        (h : heap) (self_docs : addr) (ds : list str) (query : str) (k : Z) :
  read_strs h self_docs = Some ds ->
  (length ds < fuel)%nat ->
  exists result h',
    retrieve_heap lower fuel h self_docs query k = Some (result, h')
    /\ result = retrieve lower {| docs := ds |} query k
    /\ (forall d, In d result -> In d ds)
    /\ (exists idxs, NoDup idxs
                     /\ Forall (fun i => (i < length ds)%nat) idxs
                     /\ result = List.map (fun i => nth i ds []) idxs)
    /\ (NoDup ds -> NoDup result)
    /\ read_strs h' self_docs = Some ds
    /\ (forall b, (b < length h)%nat -> nth_error h' b = nth_error h b).
Proof.
  intros Hd Hf.
  destruct (retrieve_heap_spec lower fuel h self_docs ds query k Hd Hf)
    as [h' [Hr Hfr]].
  exists (retrieve lower {| docs := ds |} query k), h'.
  pose proof (retrieve_selected lower {| docs := ds |} query k) as Hsel.
  pose proof (selected_in_store lower ds (split (lower query)) k) as Hin.
  simpl in Hsel. repeat split.
  - exact Hr.
  - intros d Hdin. rewrite Hsel in Hdin. apply in_map_iff in Hdin.
    destruct Hdin as [i [<- Hi]]. rewrite Forall_forall in Hin.
    apply nth_In. now apply Hin.
  - exists (selected lower ds (split (lower query)) k). repeat split.
    + apply (StronglySorted_NoDup (ranks_before lower (split (lower query)) ds)).
      * unfold ranks_before. intros x. lia.
      * apply selected_ranked.
    + eapply Forall_impl; [|exact Hin]. simpl. tauto.
    + exact Hsel.
  - intros Hnd. rewrite Hsel. apply NoDup_map_NoDup_ForallPairs.
    + intros i j Hi Hj E. rewrite Forall_forall in Hin.
      apply (proj1 (NoDup_nth ds []) Hnd); [apply Hin, Hi | apply Hin, Hj | exact E].
    + apply (StronglySorted_NoDup (ranks_before lower (split (lower query)) ds)).
      * unfold ranks_before. intros x. lia.
      * apply selected_ranked.
  - unfold read_strs. rewrite Hfr by (eapply read_strs_bound; eauto). exact Hd.
  - exact Hfr.
Qed.

Lemma retrieve_from_store_unchanged_witness :
  exists result h',
    retrieve_heap ascii_lower 6 [ObjStrList (docs TinyRAG_init)] 0%nat
                  (lit "disk space alerts can") 2 = Some (result, h')
    /\ result = retrieve ascii_lower TinyRAG_init (lit "disk space alerts can") 2
    /\ (forall d, In d result -> In d (docs TinyRAG_init))
    /\ (exists idxs, NoDup idxs
                     /\ Forall (fun i => (i < length (docs TinyRAG_init))%nat) idxs
                     /\ result = List.map (fun i => nth i (docs TinyRAG_init) []) idxs)
    /\ (NoDup (docs TinyRAG_init) -> NoDup result)
    /\ read_strs h' 0%nat = Some (docs TinyRAG_init)
    /\ (forall b, (b < 1)%nat ->
                  nth_error h' b = nth_error [ObjStrList (docs TinyRAG_init)] b).
Proof.
  apply (retrieve_from_store_unchanged
           ascii_lower 6 [ObjStrList (docs TinyRAG_init)] 0%nat
           (docs TinyRAG_init) (lit "disk space alerts can") 2).
  - reflexivity.
  - simpl. lia.
Defined.

(** ** The prompt *)

Lemma Substring_trans (a b c : str) :
  Substring a b -> Substring b c -> Substring a c.
Proof.
  intros [p1 [q1 ->]] [p2 [q2 ->]]. exists (p2 ++ p1), (q1 ++ q2).
  now rewrite <- !app_assoc.
Qed.

Lemma join_cons (sep p q : str) (rest : list str) :
  join sep (p :: q :: rest) = p ++ sep ++ join sep (q :: rest).
Proof. reflexivity. Qed.

Lemma join_fact (sep : str) (facts : list str) (f : str) :
  In f facts -> Substring f (join sep facts).
Proof.
  induction facts as [|p rest IH]; intros Hin; [destruct Hin|].
  destruct rest as [|q rest].
  - destruct Hin as [<- | []]. exists [], []. simpl. now rewrite app_nil_r.
  - rewrite join_cons. destruct Hin as [<- | Hin].
    + exists [], (sep ++ join sep (q :: rest)). reflexivity.
    + destruct (IH Hin) as [pre [post E]].
      exists (p ++ sep ++ pre), post. rewrite E, <- !app_assoc. reflexivity.
Qed.

Lemma join_length (sep : str) (facts : list str) :
  length (join sep facts)
  = (list_sum (List.map (@length char) facts)
     + length sep * (length facts - 1))%nat.
Proof.
  induction facts as [|p rest IH]; [simpl; lia|].
  destruct rest as [|q rest].
  - simpl. lia.
  - rewrite join_cons, !length_app, IH. simpl. lia.
Qed.

(** C6: the prompt holds the incident and the context as they are.  The
    context is the facts in their order with exactly one space between two
    neighbours and none around: no facts give the empty context, one fact
    gives itself, and every fact occurs in the prompt.  This is the prompt
    that the pipeline hands to the client. *)
Theorem prompt_embeds_incident_and_context (incident : str) (facts : list str) :
  let context := join (lit " ") facts in
  Substring incident (prompt_of incident context)
  /\ Substring context (prompt_of incident context)
  /\ join (lit " ") [] = []
  /\ (forall f, join (lit " ") [f] = f)
  /\ (forall f g rest,
        join (lit " ") (f :: g :: rest)
        = f ++ [32%N] ++ join (lit " ") (g :: rest))
  /\ Forall (fun f => Substring f (prompt_of incident context)) facts
  /\ length context
     = (list_sum (List.map (@length char) facts) + (length facts - 1))%nat
  /\ forall lower post api_key rag,
       agentic_self_healing lower post api_key incident rag
       = gemini_generate post api_key
           (prompt_of incident
                      (join (lit " ") (retrieve lower rag incident default_k)))
           350.
Proof.
  intros context.
  assert (Hctx : Substring context (prompt_of incident context)).
  { exists (prompt_head ++ incident ++ prompt_middle), prompt_tail.
    unfold prompt_of. now rewrite <- !app_assoc. }
  split; [|split; [exact Hctx|]].
  - exists prompt_head, (prompt_middle ++ context ++ prompt_tail). reflexivity.
  - repeat split.
    + rewrite Forall_forall. intros f Hf.
      apply Substring_trans with (b := context); [|exact Hctx].
      now apply join_fact.
    + unfold context. rewrite join_length.
      change (length (lit " ")) with 1%nat. lia.
Qed.

(** C9: the pipeline calls the retriever with the default bound 3, so the
    context of the prompt it sends is made of at most three facts. *)
Theorem pipeline_context_at_most_three (lower : str -> str) (rag : TinyRAG)
        (incident : str) :
  exists facts,
    facts = retrieve lower rag incident 3
    /\ (length facts <= 3)%nat
    /\ forall post api_key,
         agentic_self_healing lower post api_key incident rag
         = gemini_generate post api_key
             (prompt_of incident (join (lit " ") facts)) 350.
Proof.
  exists (retrieve lower rag incident 3). repeat split.
  unfold retrieve. rewrite length_map.
  pose proof (slice_to_length
                (sort_by (fun x => - fst x)
                         (score_docs lower (split (lower incident)) (docs rag) []))
                3 ltac:(lia)).
  lia.
Qed.

(** ** The client *)

Lemma scan_parts_skip (before rest : list json) :
  forallb no_text before = true -> scan_parts (before ++ rest) = scan_parts rest.
Proof.
  induction before as [|p before IH]; simpl; [reflexivity|].
  rewrite andb_true_iff. intros [Hp Hb]. specialize (IH Hb).
  destruct p as [| | | | | |o]; try discriminate.
  unfold no_text in Hp. unfold py_in, getitem_str.
  destruct (dict_get (lit "text") o) as [v|]; simpl.
  - apply negb_true_iff in Hp. rewrite Hp. exact IH.
  - exact IH.
Qed.

Lemma scan_parts_text (part : list (str * json)) (text : str) (after : list json) :
  dict_get (lit "text") part = Some (JStr text) -> text <> [] ->
  scan_parts (JObj part :: after) = Returned (Some (strip text)).
Proof.
  intros H Hne. simpl. unfold py_in, getitem_str. rewrite H. simpl.
  destruct text; [congruence | reflexivity].
Qed.

Lemma scan_parts_returns (ps : list json) :
  forallb text_ok ps = true -> exists r, scan_parts ps = Returned r.
Proof.
  induction ps as [|p ps IH]; simpl; [eauto|].
  rewrite andb_true_iff. intros [Hp Hps]. specialize (IH Hps).
  destruct p as [| | | | | |o]; try discriminate.
  unfold text_ok in Hp. unfold py_in, getitem_str.
  destruct (dict_get (lit "text") o) as [v|]; simpl; [|exact IH].
  destruct v as [|b|n|f|s|l|o']; simpl in *;
    try (apply negb_true_iff in Hp; rewrite Hp); try exact IH.
  destruct s; simpl; eauto.
Qed.

(** For a first candidate of the documented shape, the client scans the
    candidate's parts and falls back when the scan finds nothing. *)
Lemma extract_text_candidate (o : list (str * json)) (cand : json)
      (rest ps : list json) :
  dict_get (lit "candidates") o = Some (JArr (cand :: rest)) ->
  candidate_parts cand = Some ps ->
  extract_text (JObj o)
  = bind (scan_parts ps)
         (fun found => match found with
                       | Some text => Returned text
                       | None => Returned no_usable_text
                       end).
Proof.
  intros Hc Hp. unfold extract_text, py_in, getitem_str. rewrite Hc. simpl.
  destruct cand as [| | | | | |c]; try discriminate.
  unfold candidate_parts in Hp. unfold py_get.
  destruct (dict_get (lit "content") c) as [ct|]; simpl.
  - destruct ct as [| | | | | |ct]; try discriminate. simpl.
    destruct (dict_get (lit "parts") ct) as [v|]; simpl.
    + destruct v; try discriminate. injection Hp as ->. reflexivity.
    + injection Hp as <-. reflexivity.
  - injection Hp as <-. reflexivity.
Qed.

(** C1 (as stated, fails): a candidate list whose first element is a number
    makes the client raise [AttributeError]. *)
Lemma gemini_generate_raises_on_number_candidate :
  gemini_generate
    (fun _ => Parsed (JObj [(lit "candidates", JArr [JInt 1])]))
    (lit "key") (lit "CPU spikes to 95%") 300
  = Raised AttributeError.
Proof. vm_compute. reflexivity. Qed.

(** C1 (amended): when the request or the parsing fails, the client returns
    the warning-prefixed error string; and when the response is an object
    whose candidates are absent, false, or a list starting with a candidate
    of the documented shape, the client returns a string. *)
Theorem gemini_generate_returns (post : request -> http_outcome)
        (api_key prompt : str) (max_tokens : Z) :
  (forall e, post (make_request api_key prompt max_tokens) = RequestError e ->
             gemini_generate post api_key prompt max_tokens
             = Returned (warning_marker ++ lit " Network/Request error: " ++ e))
  /\ (forall data, post (make_request api_key prompt max_tokens) = Parsed data ->
                   well_shaped data = true ->
                   exists s, gemini_generate post api_key prompt max_tokens
                             = Returned s).
Proof.
  unfold gemini_generate. split.
  - intros e ->. reflexivity.
  - intros data -> Hw.
    destruct data as [| | | | | |o]; try discriminate.
    unfold well_shaped in Hw.
    destruct (dict_get (lit "candidates") o) as [v|] eqn:Hc.
    + assert (Hfalse : truthy v = false -> exists s, extract_text (JObj o) = Returned s).
      { intros Hv. unfold extract_text, py_in, getitem_str. rewrite Hc. simpl.
        rewrite Hv. eauto. }
      destruct v as [|b|n|f|s|l|o']; try (apply Hfalse, negb_true_iff, Hw).
      destruct l as [|cand rest]; [now apply Hfalse|].
      unfold candidate_ok in Hw.
      destruct (candidate_parts cand) as [ps|] eqn:Hp; [|discriminate].
      rewrite (extract_text_candidate o cand rest ps Hc Hp).
      destruct (scan_parts_returns ps Hw) as [[text|] ->]; simpl; eauto.
    + unfold extract_text, py_in, getitem_str. rewrite Hc. simpl. eauto.
Qed.

Lemma gemini_generate_returns_witness :
  gemini_generate (fun _ => RequestError (lit "Connection refused"))
                  (lit "key") (lit "CPU spikes to 95%") 300
  = Returned (warning_marker ++ lit " Network/Request error: "
              ++ lit "Connection refused")
  /\ exists s,
       gemini_generate
         (fun _ => Parsed (JObj [(lit "candidates",
                                  JArr [JObj [(lit "content", JObj [])]])]))
         (lit "key") (lit "CPU spikes to 95%") 300
       = Returned s.
Proof.
  split.
  - apply (proj1 (gemini_generate_returns
                    (fun _ => RequestError (lit "Connection refused"))
                    (lit "key") (lit "CPU spikes to 95%") 300)).
    reflexivity.
  - apply (proj2 (gemini_generate_returns
                    (fun _ => Parsed (JObj [(lit "candidates",
                                             JArr [JObj [(lit "content", JObj [])]])]))
                    (lit "key") (lit "CPU spikes to 95%") 300)
                 (JObj [(lit "candidates", JArr [JObj [(lit "content", JObj [])]])])).
    + reflexivity.
    + vm_compute. reflexivity.
Defined.

(** C7 (as stated, fails): a first candidate whose content is [null] holds
    no non-empty text, and a response that is [null] has no candidates key,
    yet the client raises instead of returning the fallback. *)
Lemma gemini_generate_raises_without_text :
  gemini_generate
    (fun _ => Parsed (JObj [(lit "candidates",
                             JArr [JObj [(lit "content", JNull)]])]))
    (lit "key") (lit "CPU spikes to 95%") 300
  = Raised AttributeError
  /\ gemini_generate (fun _ => Parsed JNull)
                     (lit "key") (lit "CPU spikes to 95%") 300
     = Raised TypeError.
Proof. split; vm_compute; reflexivity. Qed.

(** C7 (amended): a response that is an object without candidates, or with
    an empty candidate list, or whose first candidate is of the documented
    shape (an object whose content, when present, is an object whose parts,
    when present, are a list) and has only parts that are objects whose text
    is absent or has a false truth value, makes the client return the fixed
    fallback string. *)
Theorem gemini_generate_fallback (post : request -> http_outcome)
        (api_key prompt : str) (max_tokens : Z) (o : list (str * json)) :
  post (make_request api_key prompt max_tokens) = Parsed (JObj o) ->
  dict_get (lit "candidates") o = None
  \/ dict_get (lit "candidates") o = Some (JArr [])
  \/ (exists cand rest ps,
        dict_get (lit "candidates") o = Some (JArr (cand :: rest))
        /\ candidate_parts cand = Some ps
        /\ forallb no_text ps = true) ->
  gemini_generate post api_key prompt max_tokens = Returned no_usable_text.
Proof.
  intros Hpost H. unfold gemini_generate. rewrite Hpost.
  destruct H as [Hc | [Hc | [cand [rest [ps [Hc [Hp Hn]]]]]]].
  - unfold extract_text, py_in, getitem_str. rewrite Hc. reflexivity.
  - unfold extract_text, py_in, getitem_str. rewrite Hc. reflexivity.
  - rewrite (extract_text_candidate o cand rest ps Hc Hp).
    rewrite <- (app_nil_r ps), scan_parts_skip by exact Hn. reflexivity.
Qed.

Lemma gemini_generate_fallback_witness :
  gemini_generate (fun _ => Parsed (JObj [(lit "candidates", JArr [])]))
                  (lit "key") (lit "CPU spikes to 95%") 300
  = Returned no_usable_text.
Proof.
  apply (gemini_generate_fallback
           (fun _ => Parsed (JObj [(lit "candidates", JArr [])]))
           (lit "key") (lit "CPU spikes to 95%") 300
           [(lit "candidates", JArr [])]).
  - reflexivity.
  - right. left. vm_compute. reflexivity.
Defined.

(** C8 (as stated, fails): the parts of the first candidate hold the
    non-empty text " Plan ", but a part before it carries the number 5 as
    its text, and the client raises instead of returning "Plan". *)
Lemma gemini_generate_raises_before_text :
  gemini_generate
    (fun _ => Parsed
       (JObj [(lit "candidates",
               JArr [JObj [(lit "content",
                            JObj [(lit "parts",
                                   JArr [JObj [(lit "text", JInt 5)];
                                         JObj [(lit "text", JStr (lit " Plan "))]])])]])]))
    (lit "key") (lit "CPU spikes to 95%") 300
  = Raised AttributeError.
Proof. vm_compute. reflexivity. Qed.

(** C8 (amended): when the response is an object whose candidates are a
    non-empty list, the first candidate is of the documented shape, and the
    parts in front of the first part with a non-empty string as its text are
    objects whose text is absent or has a false truth value, the client
    returns that string stripped: the whitespace around it is cut and
    nothing else. *)
Theorem gemini_generate_first_text (post : request -> http_outcome)
        (api_key prompt : str) (max_tokens : Z) (o : list (str * json))
        (cand : json) (rest before after : list json)
        (part : list (str * json)) (text : str) :
  post (make_request api_key prompt max_tokens) = Parsed (JObj o) ->
  dict_get (lit "candidates") o = Some (JArr (cand :: rest)) ->
  candidate_parts cand = Some (before ++ JObj part :: after) ->
  forallb no_text before = true ->
  dict_get (lit "text") part = Some (JStr text) ->
  text <> [] ->
  gemini_generate post api_key prompt max_tokens = Returned (strip text)
  /\ exists lead trail,
       text = lead ++ strip text ++ trail
       /\ forallb isspace lead = true /\ forallb isspace trail = true
       /\ match strip text with [] => True | c :: _ => isspace c = false end
       /\ match rev (strip text) with [] => True | c :: _ => isspace c = false end.
Proof.
  intros Hpost Hc Hp Hb Ht Hne. split; [|apply strip_spec].
  unfold gemini_generate. rewrite Hpost.
  rewrite (extract_text_candidate o cand rest _ Hc Hp).
  rewrite scan_parts_skip by exact Hb.
  rewrite (scan_parts_text part text after Ht Hne). reflexivity.
Qed.

Lemma gemini_generate_first_text_witness :
  gemini_generate
    (fun _ => Parsed
       (JObj [(lit "candidates",
               JArr [JObj [(lit "content",
                            JObj [(lit "parts",
                                   JArr [JObj [(lit "text",
                                                JStr (lit "  Plan: restart service  "))]])])]])]))
    (lit "key") (lit "CPU spikes to 95%") 350
  = Returned (lit "Plan: restart service").
Proof.
  refine (proj1 (gemini_generate_first_text
                   (fun _ => Parsed
                      (JObj [(lit "candidates",
                              JArr [JObj [(lit "content",
                                           JObj [(lit "parts",
                                                  JArr [JObj [(lit "text",
                                                               JStr (lit "  Plan: restart service  "))]])])]])]))
                   (lit "key") (lit "CPU spikes to 95%") 350
                   [(lit "candidates",
                     JArr [JObj [(lit "content",
                                  JObj [(lit "parts",
                                         JArr [JObj [(lit "text",
                                                      JStr (lit "  Plan: restart service  "))]])])]])]
                   (JObj [(lit "content",
                           JObj [(lit "parts",
                                  JArr [JObj [(lit "text",
                                               JStr (lit "  Plan: restart service  "))]])])])
                   [] [] []
                   [(lit "text", JStr (lit "  Plan: restart service  "))]
                   (lit "  Plan: restart service  ")
                   _ _ _ _ _ _)).
  - reflexivity.
  - vm_compute. reflexivity.
  - vm_compute. reflexivity.
  - reflexivity.
  - vm_compute. reflexivity.
  - vm_compute. discriminate.
Defined.

(** * Further properties *)

(** ** Splitting and stripping *)

Lemma split_from_tokens (s cur w : str) :
  forallb (fun c => negb (isspace c)) cur = true ->
  In w (split_from cur s) ->
  w <> [] /\ forallb (fun c => negb (isspace c)) w = true /\ Substring w (cur ++ s).
Proof.
  revert cur. induction s as [|c s IH]; intros cur Hcur Hin; simpl in Hin.
  - destruct cur as [|a cur]; [destruct Hin|].
    destruct Hin as [<- | []]. repeat split; [discriminate | exact Hcur |].
    exists [], []. now rewrite app_nil_r.
  - destruct (isspace c) eqn:Hc.
    + assert (Hrest : In w (split_from [] s) ->
                      w <> [] /\ forallb (fun c => negb (isspace c)) w = true
                      /\ Substring w (cur ++ c :: s)).
      { intros H. destruct (IH [] eq_refl H) as [Hne [Hws [pre [post E]]]].
        repeat split; try assumption.
        exists (cur ++ c :: pre), post. simpl in E. rewrite E, <- app_assoc.
        reflexivity. }
      destruct cur as [|a cur]; [now apply Hrest|].
      destruct Hin as [<- | Hin]; [|now apply Hrest].
      repeat split; [discriminate | exact Hcur |].
      exists [], (c :: s). reflexivity.
    + destruct (IH (cur ++ [c])) as [Hne [Hws Hsub]]; [|exact Hin|].
      * rewrite forallb_app, Hcur. simpl. now rewrite Hc.
      * rewrite <- app_assoc in Hsub. auto.
Qed.

(** Every word that [split] yields is non-empty, holds no whitespace and
    occurs in the split text. *)
Lemma split_words (s w : str) :
  In w (split s) ->
  w <> [] /\ forallb (fun c => negb (isspace c)) w = true /\ Substring w s.
Proof. intros H. exact (split_from_tokens s [] w eq_refl H). Qed.

Lemma split_from_whitespace (cur trail : str) :
  forallb isspace trail = true ->
  split_from cur trail = match cur with [] => [] | _ => [cur] end.
Proof.
  revert cur. induction trail as [|c trail IH]; intros cur; simpl; [reflexivity|].
  rewrite andb_true_iff. intros [Hc Ht]. rewrite Hc.
  destruct cur; now rewrite (IH [] Ht).
Qed.

Lemma split_from_trailing (cur s trail : str) :
  forallb isspace trail = true ->
  split_from cur (s ++ trail) = split_from cur s.
Proof.
  intros Ht. revert cur. induction s as [|c s IH]; intros cur; simpl.
  - now apply split_from_whitespace.
  - destruct (isspace c).
    + destruct cur; now rewrite IH.
    + apply IH.
Qed.

Lemma split_leading (lead s : str) :
  forallb isspace lead = true -> split (lead ++ s) = split s.
Proof.
  unfold split. induction lead as [|c lead IH]; simpl; [reflexivity|].
  rewrite andb_true_iff. intros [Hc Hl]. rewrite Hc. now apply IH.
Qed.

Lemma split_strip (s : str) : split (strip s) = split s.
Proof.
  destruct (strip_spec s) as [lead [trail [E [Hl [Ht _]]]]].
  rewrite E at 2. rewrite split_leading by exact Hl.
  unfold split. now rewrite split_from_trailing.
Qed.

(** ** Scores and the ranking *)

Section RankingFacts.

Variable lower : str -> str.

Lemma score_positive (qw : list str) (d : str) :
  (0 <? score lower qw d) = matches lower qw d.
Proof.
  unfold score, matches. rewrite sum_ones_filter.
  induction qw as [|w qw IH]; simpl; [reflexivity|].
  destruct (contains w (lower d)); simpl; [|exact IH].
  apply Z.ltb_lt. lia.
Qed.

Lemma matches_spec (qw : list str) (d : str) :
  matches lower qw d = true <-> exists w, In w qw /\ Substring w (lower d).
Proof.
  unfold matches. rewrite existsb_exists.
  split; intros [w [Hw H]]; exists w; split; try assumption; now apply contains_spec.
Qed.

Lemma retrieve_ranking (rag : TinyRAG) (query : str) (k : Z) :
  retrieve lower rag query k
  = List.map (fun i => nth i (docs rag) [])
             (slice_to (ranking lower (docs rag) (split (lower query))) k).
Proof. apply retrieve_selected. Qed.

Lemma ranking_In (ds : list str) (qw : list str) (i : nat) :
  In i (ranking lower ds qw)
  <-> (i < length ds)%nat /\ matches lower qw (nth i ds []) = true.
Proof.
  unfold ranking. rewrite sort_by_In, filter_In, in_seq, score_positive.
  split; intros [Hi Hm]; split; try exact Hm; lia.
Qed.

Lemma ranking_sorted (ds : list str) (qw : list str) :
  StronglySorted (ranks_before lower qw ds) (ranking lower ds qw).
Proof.
  apply StronglySorted_impl
    with (R := key_then_position (fun i => - score lower qw (nth i ds []))).
  - unfold key_then_position, ranks_before. intros x y. lia.
  - apply sort_by_stable, StronglySorted_filter, StronglySorted_seq.
Qed.

Lemma ranking_length (ds : list str) (qw : list str) :
  length (ranking lower ds qw) = match_count lower qw ds.
Proof.
  unfold ranking, match_count. rewrite sort_by_length.
  transitivity (length (filter (matches lower qw)
                               (List.map (fun i => nth i ds []) (seq 0 (length ds))))).
  - rewrite filter_map_swap, length_map.
    f_equal. apply filter_ext. intros i. apply score_positive.
  - now rewrite map_nth_seq.
Qed.

Lemma match_count_le (ds : list str) (qw : list str) :
  (match_count lower qw ds <= length ds)%nat.
Proof.
  unfold match_count. induction ds as [|d ds IH]; simpl; [lia|].
  destruct (matches lower qw d); simpl; lia.
Qed.

Lemma score_docs_ext (qw1 qw2 : list str) (ds : list str) (acc : list (Z * str)) :
  (forall d, score lower qw1 d = score lower qw2 d) ->
  score_docs lower qw1 ds acc = score_docs lower qw2 ds acc.
Proof.
  intros H. revert acc. induction ds as [|d ds IH]; intros acc; simpl; [reflexivity|].
  rewrite H. apply IH.
Qed.

Lemma score_Permutation (qw1 qw2 : list str) (d : str) :
  Permutation qw1 qw2 -> score lower qw1 d = score lower qw2 d.
Proof.
  intros H. unfold score. rewrite !sum_ones_filter. f_equal.
  induction H as [|x l l' H IH|x y l|l l' l'' H1 IH1 H2 IH2]; simpl.
  - reflexivity.
  - destruct (contains x (lower d)); simpl; congruence.
  - destruct (contains x (lower d)), (contains y (lower d)); reflexivity.
  - congruence.
Qed.

End RankingFacts.

Lemma StronglySorted_app_inv {A} (R : A -> A -> Prop) (l1 l2 : list A) :
  StronglySorted R (l1 ++ l2) ->
  forall x y, In x l1 -> In y l2 -> R x y.
Proof.
  induction l1 as [|a l1 IH]; simpl; intros H x y Hx Hy; [destruct Hx|].
  inversion H as [|? ? Hs Hf]; subst. destruct Hx as [<- | Hx].
  - rewrite Forall_forall in Hf. apply Hf, in_or_app. now right.
  - now apply IH.
Qed.

(** X1: every fact that [retrieve] returns is a fact of the store whose
    lower-cased text holds at least one word of the lower-cased query, and
    that word is not empty. *)
Theorem retrieve_hits_match (lower : str -> str) (rag : TinyRAG)
        (query : str) (k : Z) (d : str) :
  In d (retrieve lower rag query k) ->
  In d (docs rag)
  /\ exists w, In w (split (lower query)) /\ w <> [] /\ Substring w (lower d).
Proof.
  rewrite retrieve_ranking. intros H. apply in_map_iff in H.
  destruct H as [i [<- Hi]].
  destruct (slice_to_prefix (ranking lower (docs rag) (split (lower query))) k)
    as [n E].
  rewrite E in Hi. apply In_firstn, ranking_In in Hi. destruct Hi as [Hlt Hm].
  split; [now apply nth_In|].
  apply matches_spec in Hm. destruct Hm as [w [Hw Hs]].
  exists w. repeat split; try assumption. now apply (split_words _ _ Hw).
Qed.

Lemma retrieve_hits_match_witness :
  In (lit "Disk space alerts can lead to service crashes.") (docs TinyRAG_init)
  /\ exists w, In w (split (ascii_lower (lit "Disk FULL")))
               /\ w <> []
               /\ Substring w (ascii_lower
                                 (lit "Disk space alerts can lead to service crashes.")).
Proof.
  apply (retrieve_hits_match ascii_lower TinyRAG_init (lit "Disk FULL") 3).
  vm_compute. left. reflexivity.
Defined.

(** X2: with a bound that is at least the size of the store, [retrieve]
    returns exactly the stored facts whose lower-cased text holds a word of
    the lower-cased query. *)
Theorem retrieve_all_matches (lower : str -> str) (rag : TinyRAG)
        (query : str) (k : Z) (d : str) :
  Z.of_nat (length (docs rag)) <= k ->
  In d (retrieve lower rag query k)
  <-> In d (docs rag)
      /\ exists w, In w (split (lower query)) /\ Substring w (lower d).
Proof.
  intros Hk. rewrite retrieve_ranking, <- matches_spec.
  set (qw := split (lower query)). set (ds := docs rag) in *.
  assert (E : slice_to (ranking lower ds qw) k = ranking lower ds qw).
  { unfold slice_to. destruct (k <? 0) eqn:Ek; [apply Z.ltb_lt in Ek; lia|].
    apply firstn_all2. rewrite ranking_length.
    pose proof (match_count_le lower ds qw). lia. }
  rewrite E, in_map_iff. split.
  - intros [i [<- Hi]]. apply ranking_In in Hi. destruct Hi as [Hlt Hm].
    split; [now apply nth_In | exact Hm].
  - intros [Hin Hm]. destruct (In_nth ds d [] Hin) as [i [Hlt Hi]].
    exists i. split; [exact Hi|]. apply ranking_In. now rewrite Hi.
Qed.

Lemma retrieve_all_matches_witness :
  In (lit "Memory leaks can cause application instability.")
     (retrieve ascii_lower TinyRAG_init (lit "can") 5)
  <-> In (lit "Memory leaks can cause application instability.") (docs TinyRAG_init)
      /\ exists w, In w (split (ascii_lower (lit "can")))
                   /\ Substring w (ascii_lower
                                     (lit "Memory leaks can cause application instability.")).
Proof.
  apply (retrieve_all_matches ascii_lower TinyRAG_init (lit "can") 5).
  simpl. lia.
Defined.

(** X3: for a bound [k >= 0], [retrieve] returns [k] facts, or all the
    matching facts when fewer than [k] match. *)
Theorem retrieve_length_exact (lower : str -> str) (rag : TinyRAG)
        (query : str) (k : Z) :
  0 <= k ->
  length (retrieve lower rag query k)
  = Nat.min (Z.to_nat k) (match_count lower (split (lower query)) (docs rag)).
Proof.
  intros Hk. rewrite retrieve_ranking, length_map. unfold slice_to.
  destruct (k <? 0) eqn:Ek; [apply Z.ltb_lt in Ek; lia|].
  now rewrite length_firstn, ranking_length.
Qed.

Lemma retrieve_length_exact_witness :
  length (retrieve ascii_lower TinyRAG_init (lit "can") 2)
  = Nat.min (Z.to_nat 2)
            (match_count ascii_lower (split (ascii_lower (lit "can")))
                         (docs TinyRAG_init)).
Proof.
  apply (retrieve_length_exact ascii_lower TinyRAG_init (lit "can") 2). lia.
Defined.

(** X4: a negative bound is not refused: [retrieve] then drops the [-k]
    lowest-ranked matching facts from the full ranking, and returns nothing
    when no more than [-k] facts match. *)
Theorem retrieve_negative_bound (lower : str -> str) (rag : TinyRAG)
        (query : str) (k : Z) :
  k < 0 ->
  retrieve lower rag query k
  = firstn (Z.to_nat (Z.of_nat (match_count lower (split (lower query)) (docs rag)) + k))
           (retrieve lower rag query (Z.of_nat (length (docs rag)))).
Proof.
  intros Hk. rewrite !retrieve_ranking.
  set (qw := split (lower query)). set (ds := docs rag).
  unfold slice_to. rewrite (proj2 (Z.ltb_lt k 0) Hk).
  destruct (Z.of_nat (length ds) <? 0) eqn:E; [apply Z.ltb_lt in E; lia|].
  rewrite (firstn_all2 (n := Z.to_nat (Z.of_nat (length ds)))).
  - rewrite <- firstn_map, ranking_length. f_equal. lia.
  - rewrite ranking_length. pose proof (match_count_le lower ds qw). lia.
Qed.

Lemma retrieve_negative_bound_witness :
  retrieve ascii_lower TinyRAG_init (lit "can service") (-1)
  = firstn (Z.to_nat (Z.of_nat (match_count ascii_lower
                                            (split (ascii_lower (lit "can service")))
                                            (docs TinyRAG_init)) + -1))
           (retrieve ascii_lower TinyRAG_init (lit "can service")
                     (Z.of_nat (length (docs TinyRAG_init)))).
Proof.
  apply (retrieve_negative_bound ascii_lower TinyRAG_init (lit "can service") (-1)).
  lia.
Defined.

(** X5: a smaller bound gives a prefix of what a larger bound gives. *)
Theorem retrieve_prefix (lower : str -> str) (rag : TinyRAG)
        (query : str) (k k' : Z) :
  0 <= k <= k' ->
  retrieve lower rag query k = firstn (Z.to_nat k) (retrieve lower rag query k').
Proof.
  intros Hk. rewrite !retrieve_ranking, firstn_map. f_equal. unfold slice_to.
  destruct (k <? 0) eqn:E; [apply Z.ltb_lt in E; lia|].
  destruct (k' <? 0) eqn:E'; [apply Z.ltb_lt in E'; lia|].
  rewrite firstn_firstn. f_equal. lia.
Qed.

Lemma retrieve_prefix_witness :
  retrieve ascii_lower TinyRAG_init (lit "can service") 1
  = firstn (Z.to_nat 1) (retrieve ascii_lower TinyRAG_init (lit "can service") 3).
Proof.
  apply (retrieve_prefix ascii_lower TinyRAG_init (lit "can service") 1 3). lia.
Defined.

(** X6: [retrieve] returns the best: a returned fact scores at least as
    high as every stored fact that is left out, and when the two score the
    same the returned one is stored first. *)
Theorem retrieve_top_ranked (lower : str -> str) (rag : TinyRAG)
        (query : str) (k : Z) :
  let sc i := score lower (split (lower query)) (nth i (docs rag) []) in
  exists idxs : list nat,
    retrieve lower rag query k = List.map (fun i => nth i (docs rag) []) idxs
    /\ forall i j, In i idxs -> (j < length (docs rag))%nat -> ~ In j idxs ->
                   sc j <= sc i /\ (sc j = sc i -> (i < j)%nat).
Proof.
  intros sc. set (qw := split (lower query)). set (ds := docs rag).
  exists (slice_to (ranking lower ds qw) k). split; [apply retrieve_ranking|].
  destruct (slice_to_prefix (ranking lower ds qw) k) as [n ->].
  intros i j Hi Hj Hnj.
  pose proof (proj1 (ranking_In lower ds qw i) (In_firstn _ _ _ Hi)) as [_ Hmi].
  rewrite <- score_positive in Hmi. apply Z.ltb_lt in Hmi. fold (sc i) in Hmi.
  destruct (matches lower qw (nth j ds [])) eqn:Hmj.
  - assert (Hjr : In j (ranking lower ds qw)) by (apply ranking_In; auto).
    rewrite <- (firstn_skipn n (ranking lower ds qw)) in Hjr.
    apply in_app_or in Hjr. destruct Hjr as [Hjr | Hjr]; [contradiction|].
    pose proof (ranking_sorted lower ds qw) as Hs.
    rewrite <- (firstn_skipn n (ranking lower ds qw)) in Hs.
    pose proof (StronglySorted_app_inv _ _ _ Hs i j Hi Hjr) as Hr.
    unfold ranks_before in Hr. cbv zeta in Hr. subst sc qw ds. cbv beta in *. lia.
  - rewrite <- score_positive in Hmj. apply Z.ltb_ge in Hmj.
    subst sc qw ds. cbv beta in *. lia.
Qed.

(** X7: the order of the words in the query does not matter: two queries
    whose lower-cased word sequences are permutations of each other retrieve
    the same facts in the same order. *)
Theorem retrieve_word_order (lower : str -> str) (rag : TinyRAG)
        (query query' : str) (k : Z) :
  Permutation (split (lower query)) (split (lower query')) ->
  retrieve lower rag query k = retrieve lower rag query' k.
Proof.
  intros H. unfold retrieve.
  rewrite (score_docs_ext lower (split (lower query)) (split (lower query')));
    [reflexivity|].
  intros d. now apply score_Permutation.
Qed.

Lemma retrieve_word_order_witness :
  retrieve ascii_lower TinyRAG_init (lit "disk can") 3
  = retrieve ascii_lower TinyRAG_init (lit "can  Disk") 3.
Proof.
  apply (retrieve_word_order ascii_lower TinyRAG_init
                             (lit "disk can") (lit "can  Disk") 3).
  vm_compute. apply perm_swap.
Defined.

(** X8: the score of a fact lies between 0 and the number of query words,
    and it is positive exactly when some query word occurs in the lower-cased
    fact. *)
Theorem score_range (lower : str -> str) (query_words : list str) (doc : str) :
  0 <= score lower query_words doc <= Z.of_nat (length query_words)
  /\ (0 < score lower query_words doc
      <-> exists w, In w query_words /\ Substring w (lower doc)).
Proof.
  split.
  - unfold score. rewrite sum_ones_filter.
    pose proof (filter_length_le (fun w => contains w (lower doc)) query_words).
    lia.
  - rewrite <- matches_spec, <- score_positive. symmetry. apply Z.ltb_lt.
Qed.

(** X9: whitespace around the query does not change what is retrieved,
    for every case mapping and every query on which lower-casing and
    stripping commute. *)
Theorem retrieve_strip (lower : str -> str) (rag : TinyRAG) (query : str) (k : Z) :
  lower (strip query) = strip (lower query) ->
  retrieve lower rag (strip query) k = retrieve lower rag query k.
Proof.
  intros H. unfold retrieve. now rewrite H, split_strip.
Qed.

Lemma retrieve_strip_witness :
  retrieve ascii_lower TinyRAG_init (strip (lit "  Disk FULL ")) 3
  = retrieve ascii_lower TinyRAG_init (lit "  Disk FULL ") 3.
Proof.
  apply (retrieve_strip ascii_lower TinyRAG_init (lit "  Disk FULL ") 3).
  vm_compute. reflexivity.
Defined.

(** ** Exceptions of the client *)

Lemma str_eqb_eq (a b : str) : str_eqb a b = true <-> a = b.
Proof.
  unfold str_eqb. destruct (list_eq_dec N.eq_dec a b); split; congruence.
Qed.

(** The scan of the parts raises nothing but [TypeError] and
    [AttributeError]. *)
Lemma scan_parts_exn (ps : list json) (e : exn) :
  scan_parts ps = Raised e -> e = TypeError \/ e = AttributeError.
Proof.
  induction ps as [|p ps IH]; simpl; [discriminate|].
  destruct p as [|b|n|f|s|l|o]; simpl; try (intros H; injection H as <-; solve [auto]).
  - destruct (contains (lit "text") s); simpl; [|exact IH].
    intros H; injection H as <-; auto.
  - destruct (existsb _ l); simpl; [|exact IH].
    intros H; injection H as <-; auto.
  - destruct (dict_get (lit "text") o) as [v|]; simpl; [|exact IH].
    destruct (truthy v); [|exact IH].
    destruct v; simpl; try discriminate; intros H; injection H as <-; auto.
Qed.

(** The extraction raises [KeyError] exactly for candidates that are a
    non-empty object, and never [IndexError]. *)
Lemma extract_text_exn (data : json) (e : exn) :
  extract_text data = Raised e ->
  e = TypeError \/ e = AttributeError
  \/ (e = KeyError
      /\ exists o kv c, data = JObj o
                        /\ dict_get (lit "candidates") o = Some (JObj (kv :: c))).
Proof.
  unfold extract_text.
  destruct data as [|b|n|f|s|l|o]; simpl; try (intros H; injection H as <-; solve [auto]).
  - destruct (contains (lit "candidates") s); simpl; [|discriminate].
    intros H; injection H as <-; auto.
  - destruct (existsb _ l); simpl; [|discriminate].
    intros H; injection H as <-; auto.
  - destruct (dict_get (lit "candidates") o) as [v|] eqn:Hc; simpl; [|discriminate].
    destruct (truthy v) eqn:Hv; [|discriminate].
    destruct v as [|b|n|f|s|l|c]; simpl in *; try discriminate;
      try (intros H; injection H as <-; solve [auto]).
    + destruct s as [|ch s]; [discriminate|]. simpl.
      intros H; injection H as <-; auto.
    + destruct l as [|cand rest]; [discriminate|]. simpl.
      destruct cand as [| | | | | |cd]; simpl;
        try (intros H; injection H as <-; solve [auto]).
      set (content := match dict_get (lit "content") cd with
                      | Some x => x
                      | None => JObj []
                      end).
      destruct content as [| | | | | |ct]; simpl;
        try (intros H; injection H as <-; solve [auto]).
      set (parts := match dict_get (lit "parts") ct with
                    | Some x => x
                    | None => JArr []
                    end).
      destruct parts as [| | | | ps | ps | ps]; simpl;
        try (intros H; injection H as <-; solve [auto]);
        (match goal with
         | |- context [scan_parts ?items] =>
             destruct (scan_parts items) as [[t|]|e'] eqn:Hs; simpl;
             try discriminate;
             intros H; injection H as <-;
             destruct (scan_parts_exn _ _ Hs); auto
         end).
    + destruct c as [|kv c]; [discriminate|].
      intros H; injection H as <-. right. right. split; [reflexivity|].
      now exists o, kv, c.
Qed.

(** X10: the client never raises [IndexError]: the guard on the truth value
    of the candidates keeps [candidates[0]] away from an empty list or
    string. *)
Theorem gemini_generate_no_index_error (post : request -> http_outcome)
        (api_key prompt : str) (max_tokens : Z) :
  gemini_generate post api_key prompt max_tokens <> Raised IndexError.
Proof.
  unfold gemini_generate.
  destruct (post (make_request api_key prompt max_tokens)) as [e|data];
    [discriminate|].
  intros H. apply extract_text_exn in H.
  destruct H as [H | [H | [H _]]]; discriminate.
Qed.

(** X11: the client raises [KeyError] exactly when the response is an
    object whose candidates are a non-empty object instead of a list. *)
Theorem gemini_generate_key_error (post : request -> http_outcome)
        (api_key prompt : str) (max_tokens : Z) :
  gemini_generate post api_key prompt max_tokens = Raised KeyError
  <-> exists o kv c,
        post (make_request api_key prompt max_tokens) = Parsed (JObj o)
        /\ dict_get (lit "candidates") o = Some (JObj (kv :: c)).
Proof.
  unfold gemini_generate. split.
  - destruct (post (make_request api_key prompt max_tokens)) as [e|data];
      [discriminate|].
    intros H. apply extract_text_exn in H.
    destruct H as [H | [H | [_ [o [kv [c [-> Hc]]]]]]]; try discriminate.
    now exists o, kv, c.
  - intros [o [kv [c [-> Hc]]]].
    unfold extract_text, py_in, getitem_str. rewrite Hc. reflexivity.
Qed.

Lemma lstrip_whitespace (s : str) : forallb isspace s = true -> lstrip s = [].
Proof.
  induction s as [|c s IH]; simpl; [reflexivity|].
  rewrite andb_true_iff. intros [-> Hs]. now apply IH.
Qed.

Lemma strip_whitespace (s : str) : forallb isspace s = true -> strip s = [].
Proof.
  intros H. unfold strip, rstrip. now rewrite (lstrip_whitespace s H).
Qed.

(** X12: a first text that is not empty but all whitespace is returned
    stripped: the report is the empty string, not the fallback, and the
    parts after it are not looked at. *)
Theorem gemini_generate_blank_text (post : request -> http_outcome)
        (api_key prompt : str) (max_tokens : Z) (o : list (str * json))
        (cand : json) (rest before after : list json)
        (part : list (str * json)) (text : str) :
  post (make_request api_key prompt max_tokens) = Parsed (JObj o) ->
  dict_get (lit "candidates") o = Some (JArr (cand :: rest)) ->
  candidate_parts cand = Some (before ++ JObj part :: after) ->
  forallb no_text before = true ->
  dict_get (lit "text") part = Some (JStr text) ->
  text <> [] ->
  forallb isspace text = true ->
  gemini_generate post api_key prompt max_tokens = Returned [].
Proof.
  intros Hpost Hc Hp Hb Ht Hne Hws.
  unfold gemini_generate. rewrite Hpost.
  rewrite (extract_text_candidate o cand rest _ Hc Hp).
  rewrite scan_parts_skip by exact Hb.
  rewrite (scan_parts_text part text after Ht Hne). simpl.
  now rewrite strip_whitespace.
Qed.

Lemma gemini_generate_blank_text_witness :
  gemini_generate
    (fun _ => Parsed
       (JObj [(lit "candidates",
               JArr [JObj [(lit "content",
                            JObj [(lit "parts",
                                   JArr [JObj [(lit "text", JStr (lit "  "))];
                                         JObj [(lit "text", JStr (lit "Plan"))]])])]])]))
    (lit "key") (lit "CPU spikes to 95%") 350
  = Returned [].
Proof.
  refine (gemini_generate_blank_text
            (fun _ => Parsed
               (JObj [(lit "candidates",
                       JArr [JObj [(lit "content",
                                    JObj [(lit "parts",
                                           JArr [JObj [(lit "text", JStr (lit "  "))];
                                                 JObj [(lit "text", JStr (lit "Plan"))]])])]])]))
            (lit "key") (lit "CPU spikes to 95%") 350
            [(lit "candidates",
              JArr [JObj [(lit "content",
                           JObj [(lit "parts",
                                  JArr [JObj [(lit "text", JStr (lit "  "))];
                                        JObj [(lit "text", JStr (lit "Plan"))]])])]])]
            (JObj [(lit "content",
                    JObj [(lit "parts",
                           JArr [JObj [(lit "text", JStr (lit "  "))];
                                 JObj [(lit "text", JStr (lit "Plan"))]])])])
            [] [] [JObj [(lit "text", JStr (lit "Plan"))]]
            [(lit "text", JStr (lit "  "))]
            (lit "  ")
            _ _ _ _ _ _ _).
  - reflexivity.
  - vm_compute. reflexivity.
  - vm_compute. reflexivity.
  - reflexivity.
  - vm_compute. reflexivity.
  - vm_compute. discriminate.
  - vm_compute. reflexivity.
Defined.

(** X13: a first text with a true truth value that is not a string (a
    number, [true], a non-empty list or object) makes the client raise
    [AttributeError], whatever the parts after it hold. *)
Theorem gemini_generate_text_not_string (post : request -> http_outcome)
        (api_key prompt : str) (max_tokens : Z) (o : list (str * json))
        (cand : json) (rest before after : list json)
        (part : list (str * json)) (v : json) :
  post (make_request api_key prompt max_tokens) = Parsed (JObj o) ->
  dict_get (lit "candidates") o = Some (JArr (cand :: rest)) ->
  candidate_parts cand = Some (before ++ JObj part :: after) ->
  forallb no_text before = true ->
  dict_get (lit "text") part = Some v ->
  truthy v = true ->
  (forall s, v <> JStr s) ->
  gemini_generate post api_key prompt max_tokens = Raised AttributeError.
Proof.
  intros Hpost Hc Hp Hb Ht Hv Hns.
  unfold gemini_generate. rewrite Hpost.
  rewrite (extract_text_candidate o cand rest _ Hc Hp).
  rewrite scan_parts_skip by exact Hb.
  simpl. unfold py_in, getitem_str. rewrite Ht. simpl. rewrite Hv.
  destruct v; try reflexivity. now destruct (Hns s).
Qed.

Lemma gemini_generate_text_not_string_witness :
  gemini_generate
    (fun _ => Parsed
       (JObj [(lit "candidates",
               JArr [JObj [(lit "content",
                            JObj [(lit "parts",
                                   JArr [JObj [(lit "text", JInt 5)]])])]])]))
    (lit "key") (lit "CPU spikes to 95%") 350
  = Raised AttributeError.
Proof.
  refine (gemini_generate_text_not_string
            (fun _ => Parsed
               (JObj [(lit "candidates",
                       JArr [JObj [(lit "content",
                                    JObj [(lit "parts",
                                           JArr [JObj [(lit "text", JInt 5)]])])]])]))
            (lit "key") (lit "CPU spikes to 95%") 350
            [(lit "candidates",
              JArr [JObj [(lit "content",
                           JObj [(lit "parts",
                                  JArr [JObj [(lit "text", JInt 5)]])])]])]
            (JObj [(lit "content",
                    JObj [(lit "parts", JArr [JObj [(lit "text", JInt 5)]])])])
            [] [] []
            [(lit "text", JInt 5)]
            (JInt 5)
            _ _ _ _ _ _ _).
  - reflexivity.
  - vm_compute. reflexivity.
  - vm_compute. reflexivity.
  - reflexivity.
  - vm_compute. reflexivity.
  - reflexivity.
  - intros s. discriminate.
Defined.

Lemma existsb_is_str (key : str) (l : list json) :
  existsb (fun x => match x with JStr s => str_eqb s key | _ => false end) l = true
  <-> In (JStr key) l.
Proof.
  rewrite existsb_exists. split.
  - intros [x [Hx H]]. destruct x; try discriminate.
    apply str_eqb_eq in H. now subst.
  - intros H. exists (JStr key). split; [exact H | now apply str_eqb_eq].
Qed.

(** X14: for a response that is not an object the client has two
    outcomes: a list that does not hold the string "candidates", or a string
    in which it does not occur, gives the fallback; every other value
    raises [TypeError]. *)
Theorem gemini_generate_not_object (post : request -> http_outcome)
        (api_key prompt : str) (max_tokens : Z) (data : json) :
  post (make_request api_key prompt max_tokens) = Parsed data ->
  (forall o, data <> JObj o) ->
  let falls_back :=
    (exists l, data = JArr l /\ ~ In (JStr (lit "candidates")) l)
    \/ (exists s, data = JStr s /\ ~ Substring (lit "candidates") s) in
  (falls_back ->
   gemini_generate post api_key prompt max_tokens = Returned no_usable_text)
  /\ (~ falls_back ->
      gemini_generate post api_key prompt max_tokens = Raised TypeError).
Proof.
  intros Hpost Hno falls_back. unfold gemini_generate. rewrite Hpost.
  unfold extract_text, falls_back. split.
  - intros [[l [-> Hl]] | [s [-> Hs]]]; simpl.
    + rewrite <- existsb_is_str in Hl. apply not_true_is_false in Hl.
      now rewrite Hl.
    + apply contains_false in Hs. now rewrite Hs.
  - intros Hn. destruct data as [|b|n|f|s|l|o]; simpl; try reflexivity.
    + destruct (contains (lit "candidates") s) eqn:E; [reflexivity|].
      exfalso. apply Hn. right. exists s. split; [reflexivity|].
      now apply contains_false.
    + destruct (existsb _ l) eqn:E; [reflexivity|].
      exfalso. apply Hn. left. exists l. split; [reflexivity|].
      rewrite <- existsb_is_str. congruence.
    + now destruct (Hno o).
Qed.

Lemma gemini_generate_not_object_witness :
  ((exists l, JNull = JArr l /\ ~ In (JStr (lit "candidates")) l)
   \/ (exists s, JNull = JStr s /\ ~ Substring (lit "candidates") s) ->
   gemini_generate (fun _ => Parsed JNull) (lit "key") (lit "CPU spikes to 95%") 300
   = Returned no_usable_text)
  /\ (~ ((exists l, JNull = JArr l /\ ~ In (JStr (lit "candidates")) l)
         \/ (exists s, JNull = JStr s /\ ~ Substring (lit "candidates") s)) ->
      gemini_generate (fun _ => Parsed JNull) (lit "key") (lit "CPU spikes to 95%") 300
      = Raised TypeError).
Proof.
  apply (gemini_generate_not_object
           (fun _ => Parsed JNull) (lit "key") (lit "CPU spikes to 95%") 300 JNull).
  - reflexivity.
  - intros o. discriminate.
Defined.

(** ** The pipeline and the page script *)

Lemma retrieve_no_match (lower : str -> str) (rag : TinyRAG) (query : str) (k : Z) :
  (forall w d, In w (split (lower query)) -> In d (docs rag) ->
               ~ Substring w (lower d)) ->
  retrieve lower rag query k = [].
Proof.
  intros H. rewrite retrieve_ranking.
  destruct (ranking lower (docs rag) (split (lower query))) as [|i r] eqn:E.
  - unfold slice_to. destruct (k <? 0); now rewrite firstn_nil.
  - exfalso.
    assert (Hi : In i (ranking lower (docs rag) (split (lower query))))
      by (rewrite E; now left).
    apply ranking_In in Hi. destruct Hi as [Hlt Hm].
    apply matches_spec in Hm. destruct Hm as [w [Hw Hs]].
    exact (H w _ Hw (nth_In _ _ Hlt) Hs).
Qed.

(** X15: when no word of the incident occurs in a stored fact the pipeline
    still calls the client, with a prompt whose knowledge-base field is
    empty. *)
Theorem pipeline_without_context (lower : str -> str)
        (post : request -> http_outcome) (api_key incident : str) (rag : TinyRAG) :
  (forall w d, In w (split (lower incident)) -> In d (docs rag) ->
               ~ Substring w (lower d)) ->
  agentic_self_healing lower post api_key incident rag
  = gemini_generate post api_key
                    (prompt_head ++ incident ++ prompt_middle ++ prompt_tail) 350.
Proof.
  intros H. unfold agentic_self_healing.
  rewrite (retrieve_no_match lower rag incident default_k H). reflexivity.
Qed.

Lemma pipeline_without_context_witness :
  agentic_self_healing ascii_lower (fun _ => RequestError (lit "timed out"))
                       (lit "key") (lit "xyz") TinyRAG_init
  = gemini_generate (fun _ => RequestError (lit "timed out")) (lit "key")
                    (prompt_head ++ lit "xyz" ++ prompt_middle ++ prompt_tail) 350.
Proof.
  apply (pipeline_without_context ascii_lower
           (fun _ => RequestError (lit "timed out")) (lit "key") (lit "xyz")
           TinyRAG_init).
  intros w d Hw Hd. apply contains_false.
  vm_compute in Hw. vm_compute in Hd.
  destruct Hw as [<- | []].
  repeat (destruct Hd as [<- | Hd]; [vm_compute; reflexivity|]).
  destruct Hd.
Defined.

(** X16: the secrets are looked up before the environment is read: when
    the lookup raises, [get_api_key] raises with it whatever the environment
    holds, and a run ends with that exception before any message. *)
Theorem run_analysis_secrets_failure (lower : str -> str)
        (secrets_get : secrets_lookup) (post : request -> http_outcome)
        (LANGGRAPH_AVAILABLE : bool) (graph_raises : ui_event -> option str)
        (incident_input : str) (env : environ) (e : script_exn) :
  secrets_get GEMINI_API_KEY [] env = Failed e ->
  get_api_key secrets_get env = Failed e
  /\ run_analysis lower secrets_get post LANGGRAPH_AVAILABLE graph_raises
                  incident_input env
     = ([], Failed e).
Proof.
  intros H. unfold run_analysis, get_api_key. now rewrite H.
Qed.

Lemma run_analysis_secrets_failure_witness :
  get_api_key (fun _ _ _ => Failed (SecretsError (lit "No secrets found.")))
              (fun _ => Some (lit "key"))
  = Failed (SecretsError (lit "No secrets found."))
  /\ run_analysis ascii_lower
                  (fun _ _ _ => Failed (SecretsError (lit "No secrets found.")))
                  (fun _ => RequestError (lit "timed out")) false (fun _ => None)
                  (lit "disk full") (fun _ => Some (lit "key"))
     = ([], Failed (SecretsError (lit "No secrets found."))).
Proof.
  apply (run_analysis_secrets_failure
           ascii_lower
           (fun _ _ _ => Failed (SecretsError (lit "No secrets found.")))
           (fun _ => RequestError (lit "timed out")) false (fun _ => None)
           (lit "disk full") (fun _ => Some (lit "key"))
           (SecretsError (lit "No secrets found."))).
  reflexivity.
Defined.

(** X17: when the secrets lookup returns, a run ends at the missing-key
    error, whatever the input, the transport and the graph library, exactly
    when the environment it leaves holds the empty string for the key, or
    holds nothing for it while the lookup returned the empty string. *)
Theorem run_analysis_key_missing (lower : str -> str)
        (secrets_get : secrets_lookup) (post : request -> http_outcome)
        (LANGGRAPH_AVAILABLE : bool) (graph_raises : ui_event -> option str)
        (incident_input : str) (env env' : environ) (default : str) :
  secrets_get GEMINI_API_KEY [] env = Done (default, env') ->
  run_analysis lower secrets_get post LANGGRAPH_AVAILABLE graph_raises
               incident_input env
  = ([key_missing], Done tt)
  <-> env' GEMINI_API_KEY = Some []
      \/ (env' GEMINI_API_KEY = None /\ default = []).
Proof.
  intros Hs. unfold run_analysis, get_api_key. rewrite Hs.
  assert (Hrun : forall c key,
             match strip incident_input with
             | [] => emit input_missing
             | _ :: _ =>
                 graph_before LANGGRAPH_AVAILABLE graph_raises incident_input >>>
                 emit spinner >>>
                 match agentic_self_healing lower post (c :: key)
                                            (strip incident_input) TinyRAG_init with
                 | Raised e => ([], Failed (ClientError e))
                 | Returned report =>
                     emit report_header >>>
                     emit (StMarkdown report) >>>
                     graph_after LANGGRAPH_AVAILABLE graph_raises report
                 end
             end <> ([key_missing], Done tt)).
  { intros c key E. destruct (strip incident_input); [discriminate|].
    unfold and_then in E.
    destruct (graph_before LANGGRAPH_AVAILABLE graph_raises incident_input)
      as [ev [[]|e]]; [|discriminate].
    cbn in E.
    destruct (agentic_self_healing lower post (c :: key) _ TinyRAG_init);
      cbn in E; [|discriminate].
    destruct (graph_after LANGGRAPH_AVAILABLE graph_raises a) as [ev' r].
    injection E as E1 E2.
    assert (H : In spinner [key_missing]).
    { rewrite <- E1. apply in_or_app. right. now left. }
    destruct H as [H | []]. discriminate. }
  destruct (env' GEMINI_API_KEY) as [[|c v]|]; [| |destruct default as [|c v]].
  - split; auto.
  - split; [intros H; now destruct (Hrun c v) | intros [H | [H _]]; discriminate].
  - split; auto.
  - split; [intros H; now destruct (Hrun c v) | intros [H | [_ H]]; discriminate].
Qed.

Lemma run_analysis_key_missing_witness :
  run_analysis ascii_lower (fun _ default env => Done (default, env))
               (fun _ => RequestError (lit "timed out")) false (fun _ => None)
               (lit "disk full") (fun _ => Some [])
  = ([key_missing], Done tt).
Proof.
  apply (proj2 (run_analysis_key_missing
                  ascii_lower (fun _ default env => Done (default, env))
                  (fun _ => RequestError (lit "timed out")) false (fun _ => None)
                  (lit "disk full") (fun _ => Some []) (fun _ => Some []) []
                  eq_refl)).
  left. reflexivity.
Defined.

(** X18: with a key, an input of nothing but whitespace ends the run at the
    warning, for every transport and whatever the graph library does. *)
Theorem run_analysis_blank_input (lower : str -> str)
        (secrets_get : secrets_lookup) (post : request -> http_outcome)
        (LANGGRAPH_AVAILABLE : bool) (graph_raises : ui_event -> option str)
        (incident_input : str) (env env' : environ) (api_key : str) :
  get_api_key secrets_get env = Done (api_key, env') ->
  api_key <> [] ->
  forallb isspace incident_input = true ->
  run_analysis lower secrets_get post LANGGRAPH_AVAILABLE graph_raises
               incident_input env
  = ([input_missing], Done tt).
Proof.
  intros Hk Hne Hws. unfold run_analysis. rewrite Hk.
  destruct api_key; [congruence|].
  now rewrite strip_whitespace.
Qed.

Lemma run_analysis_blank_input_witness :
  run_analysis ascii_lower (fun _ default env => Done (default, env))
               (fun _ => RequestError (lit "timed out")) false (fun _ => None)
               (lit "   ") (fun _ => Some (lit "key"))
  = ([input_missing], Done tt).
Proof.
  apply (run_analysis_blank_input
           ascii_lower (fun _ default env => Done (default, env))
           (fun _ => RequestError (lit "timed out")) false (fun _ => None)
           (lit "   ") (fun _ => Some (lit "key")) (fun _ => Some (lit "key"))
           (lit "key")).
  - reflexivity.
  - vm_compute. discriminate.
  - vm_compute. reflexivity.
Defined.

(** X19: without the graph library, a run with a key and an input that is
    not blank hands the stripped input and a fresh knowledge base to the
    pipeline.  When the pipeline returns, the run shows the spinner, the
    header and the report; when it raises, the exception ends the run after
    the spinner. *)
Theorem run_analysis_report (lower : str -> str)
        (secrets_get : secrets_lookup) (post : request -> http_outcome)
        (graph_raises : ui_event -> option str)
        (incident_input : str) (env env' : environ) (api_key : str) :
  get_api_key secrets_get env = Done (api_key, env') ->
  api_key <> [] ->
  strip incident_input <> [] ->
  run_analysis lower secrets_get post false graph_raises incident_input env
  = match agentic_self_healing lower post api_key
                               (strip incident_input) TinyRAG_init with
    | Returned report => ([spinner; report_header; StMarkdown report], Done tt)
    | Raised e => ([spinner], Failed (ClientError e))
    end.
Proof.
  intros Hk Hne Hi. unfold run_analysis. rewrite Hk.
  destruct api_key as [|c key]; [congruence|].
  destruct (strip incident_input) as [|a inc]; [congruence|].
  destruct (agentic_self_healing lower post (c :: key) (a :: inc) TinyRAG_init);
    reflexivity.
Qed.

Lemma run_analysis_report_witness :
  run_analysis ascii_lower (fun _ default env => Done (default, env))
               (fun _ => Parsed (JObj [(lit "candidates", JArr [JInt 1])]))
               false (fun _ => None)
               (lit " disk full ") (fun _ => Some (lit "key"))
  = ([spinner], Failed (ClientError AttributeError)).
Proof.
  refine (run_analysis_report
            ascii_lower (fun _ default env => Done (default, env))
            (fun _ => Parsed (JObj [(lit "candidates", JArr [JInt 1])]))
            (fun _ => None)
            (lit " disk full ") (fun _ => Some (lit "key"))
            (fun _ => Some (lit "key")) (lit "key") _ _ _).
  - reflexivity.
  - vm_compute. discriminate.
  - vm_compute. discriminate.
Defined.

(** X20: without the graph library, a request that fails is rendered like
    a report: below the header the run shows the warning-prefixed error
    string, and it ends normally. *)
Theorem run_analysis_request_failure (lower : str -> str)
        (secrets_get : secrets_lookup) (post : request -> http_outcome)
        (graph_raises : ui_event -> option str)
        (incident_input detail : str) (env env' : environ) (api_key : str) :
  get_api_key secrets_get env = Done (api_key, env') ->
  api_key <> [] ->
  strip incident_input <> [] ->
  (forall r, post r = RequestError detail) ->
  run_analysis lower secrets_get post false graph_raises incident_input env
  = ([spinner; report_header;
      StMarkdown (warning_marker ++ lit " Network/Request error: " ++ detail)],
     Done tt).
Proof.
  intros Hk Hne Hi Hpost. unfold run_analysis. rewrite Hk.
  destruct api_key as [|c key]; [congruence|].
  destruct (strip incident_input) as [|a inc]; [congruence|].
  unfold agentic_self_healing, gemini_generate. rewrite Hpost. reflexivity.
Qed.

Lemma run_analysis_request_failure_witness :
  run_analysis ascii_lower (fun _ default env => Done (default, env))
               (fun _ => RequestError (lit "Connection refused"))
               false (fun _ => None)
               (lit "CPU spikes to 95%") (fun _ => Some (lit "key"))
  = ([spinner; report_header;
      StMarkdown (warning_marker ++ lit " Network/Request error: "
                  ++ lit "Connection refused")],
     Done tt).
Proof.
  refine (run_analysis_request_failure
            ascii_lower (fun _ default env => Done (default, env))
            (fun _ => RequestError (lit "Connection refused"))
            (fun _ => None)
            (lit "CPU spikes to 95%") (lit "Connection refused")
            (fun _ => Some (lit "key")) (fun _ => Some (lit "key")) (lit "key")
            _ _ _ _).
  - reflexivity.
  - vm_compute. discriminate.
  - vm_compute. discriminate.
  - reflexivity.
Defined.

(** X21: with the graph library imported, an exception in the creation of
    the graph ends the run before the spinner: nothing is shown and the
    pipeline has no part in the outcome, whatever the transport. *)
Theorem run_analysis_graph_failure (lower : str -> str)
        (secrets_get : secrets_lookup) (post : request -> http_outcome)
        (graph_raises : ui_event -> option str)
        (incident_input detail : str) (env env' : environ) (api_key : str) :
  get_api_key secrets_get env = Done (api_key, env') ->
  api_key <> [] ->
  strip incident_input <> [] ->
  graph_raises GraphNew = Some detail ->
  run_analysis lower secrets_get post true graph_raises incident_input env
  = ([], Failed (GraphError detail)).
Proof.
  intros Hk Hne Hi Hg. unfold run_analysis. rewrite Hk.
  destruct api_key as [|c key]; [congruence|].
  destruct (strip incident_input) as [|a inc]; [congruence|].
  unfold graph_before, graph_call. rewrite Hg. reflexivity.
Qed.

Lemma run_analysis_graph_failure_witness :
  run_analysis ascii_lower (fun _ default env => Done (default, env))
               (fun _ => RequestError (lit "Connection refused"))
               true (fun _ => Some (lit "module has no attribute Graph"))
               (lit "CPU spikes to 95%") (fun _ => Some (lit "key"))
  = ([], Failed (GraphError (lit "module has no attribute Graph"))).
Proof.
  refine (run_analysis_graph_failure
            ascii_lower (fun _ default env => Done (default, env))
            (fun _ => RequestError (lit "Connection refused"))
            (fun _ => Some (lit "module has no attribute Graph"))
            (lit "CPU spikes to 95%") (lit "module has no attribute Graph")
            (fun _ => Some (lit "key")) (fun _ => Some (lit "key")) (lit "key")
            _ _ _ _).
  - reflexivity.
  - vm_compute. discriminate.
  - vm_compute. discriminate.
  - reflexivity.
Defined.
